(** * BLE central: name filter, connection array and scan restarts

    A shallow embedding of [main.c]: the advertisement callback
    [device_found] with its name filter [device_name_found], the scan
    controller [start_scan], and the connection callbacks [connected] and
    [disconnected], all acting on the global array [conns].

    The Bluetooth host stack is not part of the program.  Every call into it
    ([bt_le_scan_stop], [bt_conn_le_create], [bt_le_scan_start],
    [bt_conn_unref], [bt_enable], [printk]) is recorded in a trace, and the
    value it returns is read from a [host] record supplied with the event. *)

From Stdlib Require Import ZArith Lia Strings.Byte Strings.String.
From stdpp Require Import base option list.

Local Open Scope Z_scope.

(** ** Constants of the Bluetooth headers *)

(** The three constants below come from the host's headers, which are not
    part of the program; they carry the numbers the Bluetooth specification
    assigns.  No general theorem depends on the values. *)

(** [BT_GAP_ADV_TYPE_ADV_IND]: connectable undirected advertising. *)
Definition BT_GAP_ADV_TYPE_ADV_IND : Z := 0.
(** [BT_GAP_ADV_TYPE_ADV_DIRECT_IND]: connectable directed advertising. *)
Definition BT_GAP_ADV_TYPE_ADV_DIRECT_IND : Z := 1.
(** [BT_DATA_NAME_COMPLETE]: the complete-local-name field type. *)
Definition BT_DATA_NAME_COMPLETE : Z := 9.

(** [#define MAX_CONNECTIONS 6] *)
Definition MAX_CONNECTIONS : nat := 6.

(** ** Advertisement data *)

(** [struct bt_data]: a field type and [data_len] payload bytes.  The
    pointer/length pair of the C struct is the list [data]; [data_len] is its
    length. *)
Record bt_data := BtData { type : Z; data : list byte }.

Definition data_len (d : bt_data) : nat := length (data d).

(** The bytes of a C string literal: its characters followed by NUL. *)
Definition c_string (s : string) : list byte :=
  (list_byte_of_string s ++ [x00])%list.

(** [strncmp(s1, s2, n)]: compares at most [n] characters as unsigned char
    and stops after a NUL that both strings share.  The lists are the bytes
    that may be read; [None] is a read past the end of one of them. *)
Fixpoint strncmp (s1 s2 : list byte) (n : nat) : option Z :=
  match n with
  | O => Some 0
  | S n' =>
      match s1, s2 with
      | c1 :: t1, c2 :: t2 =>
          if Byte.eqb c1 c2
          then if Byte.eqb c1 x00 then Some 0 else strncmp t1 t2 n'
          else Some (Z.of_N (Byte.to_N c1) - Z.of_N (Byte.to_N c2))
      | _, _ => None
      end
  end.

(** [device_name_found]: the callback given to [bt_data_parse].  It returns
    [false] (stop parsing: found) when a complete-name field compares equal
    under [strncmp] over [data_len] characters, and [true] (continue)
    otherwise. *)
Definition device_name_found (d : bt_data) (user_data : list byte)
  : option bool :=
  let name := user_data in
  if type d =? BT_DATA_NAME_COMPLETE then
    match strncmp name (data d) (data_len d) with
    | Some r => if r =? 0 then Some false else Some true
    | None => None
    end
  else Some true.

(** Modelled from the spec: [bt_data_parse(ad, func, user_data)] of the host
    stack, whose code is not in the program.  The advertisement is its
    ordered sequence of fields; [func] is called on each field in order
    until it returns [false]; the result is zero ([false]: found) when a
    callback stopped the parse and non-zero ([true]: not found) when every
    callback asked to continue. *)
Fixpoint bt_data_parse (ad : list bt_data)
    (func : bt_data -> list byte -> option bool) (user_data : list byte)
  : option bool :=
  match ad with
  | [] => Some true
  | d :: ad' =>
      match func d user_data with
      | None => None
      | Some false => Some false
      | Some true => bt_data_parse ad' func user_data
      end
  end.

(** [const char *desired_name = "DXC";] *)
Definition desired_name : list byte := c_string "DXC".

(** ** Program state and host stack *)

(** A non-NULL [struct bt_conn *]; a slot of [conns] is [None] when NULL. *)
Definition bt_conn := positive.

(** A [bt_addr_le_t], kept abstract as a number. *)
Definition bt_addr_le_t := Z.

(** Modelled from the spec: the scan state, [Idle] or [Scanning].  The
    program keeps no such variable; it is the state of the host's scanner,
    changed only by the two scan calls. *)
Inductive scan_state := Idle | Scanning.

(** The lines the program prints. *)
Inductive message :=
| MsgDeviceFound (addr : bt_addr_le_t) (rssi : Z)
| MsgCreateConnFailed (addr : bt_addr_le_t) (err : Z)
| MsgNoSlots
| MsgScanFailed (err : Z)
| MsgScanStarted
| MsgFailedToConnect (conn : bt_conn) (err : Z)
| MsgConnected (conn : bt_conn)
| MsgDisconnected (conn : bt_conn) (reason : Z)
| MsgInitFailed (err : Z)
| MsgInitialized.

(** Calls out of the program, in the order they are made. *)
Inductive call :=
| Printk (m : message)
| BtEnable
| BtLeScanStop
| BtLeScanStart
| BtConnLeCreate (addr : bt_addr_le_t) (slot : nat)
| BtConnUnref (conn : bt_conn).

(** What the host stack answers during one callback: the return values of
    the calls, and the object [bt_conn_le_create] stores through its out
    parameter when it returns 0. *)
Record host := Host {
  enable_ret : Z;
  scan_stop_ret : Z;
  scan_start_ret : Z;
  create_ret : Z;
  create_obj : bt_conn
}.

(** The global array [conns], the scanner's state and the calls made so
    far. *)
Record state := State {
  conns : list (option bt_conn);
  scan : scan_state;
  trace : list call
}.

(** ** A state monad with faults *)

(** A computation either faults ([None]: undefined behaviour in C) or
    returns a value and the next state. *)
Definition M (A : Type) : Type := state -> option (A * state).

Definition ret {A} (a : A) : M A := fun st => Some (a, st).

Definition bind {A B} (m : M A) (k : A -> M B) : M B :=
  fun st => match m st with
            | Some (a, st') => k a st'
            | None => None
            end.

Definition lift {A} (o : option A) : M A :=
  fun st => match o with Some a => Some (a, st) | None => None end.

Notation "x <- m ;; k" := (bind m (fun x => k))
  (at level 100, m at next level, right associativity).
Notation "m ;;; k" := (bind m (fun _ => k))
  (at level 100, right associativity).

Definition emit (c : call) : M unit :=
  fun st => Some (tt, State (conns st) (scan st) (trace st ++ [c])).

Definition printk (m : message) : M unit := emit (Printk m).

(** [conns[i]].  The loops keep [i] below [MAX_CONNECTIONS]; on a list that
    is too short the read yields NULL. *)
Definition get_conn (i : nat) : M (option bt_conn) :=
  fun st => Some (default None (conns st !! i), st).

(** [conns[i] = v] *)
Definition set_conn (i : nat) (v : option bt_conn) : M unit :=
  fun st => Some (tt, State (<[i := v]> (conns st)) (scan st) (trace st)).

Definition set_scan (s : scan_state) : M unit :=
  fun st => Some (tt, State (conns st) s (trace st)).

(** ** Host calls *)

(** Modelled from the spec: [bt_le_scan_stop()] of the host stack.  The
    scanner is idle once the call returns 0; a failed call leaves it as it
    was. *)
Definition bt_le_scan_stop (h : host) : M Z :=
  emit BtLeScanStop ;;;
  (if scan_stop_ret h =? 0 then set_scan Idle else ret tt) ;;;
  ret (scan_stop_ret h).

(** Modelled from the spec: [bt_le_scan_start(BT_LE_SCAN_PASSIVE,
    device_found)] of the host stack.  The scanner runs once the call
    returns 0; on a failure the scan state remains what it was. *)
Definition bt_le_scan_start (h : host) : M Z :=
  emit BtLeScanStart ;;;
  (if scan_start_ret h =? 0 then set_scan Scanning else ret tt) ;;;
  ret (scan_start_ret h).

(** Modelled from the spec: [bt_conn_le_create(addr, ..., &conns[i])] of
    the host stack, which returns a connection handle or an error.  On 0
    the new connection object is stored in [conns[i]]; on an error the slot
    is not written. *)
Definition bt_conn_le_create (h : host) (addr : bt_addr_le_t) (i : nat)
  : M Z :=
  emit (BtConnLeCreate addr i) ;;;
  (if create_ret h =? 0 then set_conn i (Some (create_obj h)) else ret tt) ;;;
  ret (create_ret h).

Definition bt_conn_unref (c : bt_conn) : M unit := emit (BtConnUnref c).

Definition bt_enable (h : host) : M Z :=
  emit BtEnable ;;; ret (enable_ret h).

(** ** The program *)

(** [start_scan] *)
Definition start_scan (h : host) : M unit :=
  err <- bt_le_scan_start h ;;
  if negb (err =? 0) then printk (MsgScanFailed err)
  else printk MsgScanStarted.

(** The slot search of [device_found]: [for (i = 0; i < MAX_CONNECTIONS;
    i++)], with [n] iterations left, and the code after the loop. *)
Fixpoint connect_loop (h : host) (addr : bt_addr_le_t) (i n : nat)
  : M unit :=
  match n with
  | O => printk MsgNoSlots ;;; start_scan h
  | S n' =>
      c <- get_conn i ;;
      match c with
      | None =>
          err <- bt_conn_le_create h addr i ;;
          if negb (err =? 0)
          then printk (MsgCreateConnFailed addr err) ;;; start_scan h
          else ret tt
      | Some _ => connect_loop h addr (S i) n'
      end
  end.

(** [device_found] *)
Definition device_found (h : host) (addr : bt_addr_le_t) (rssi ty : Z)
    (ad : list bt_data) : M unit :=
  if negb (ty =? BT_GAP_ADV_TYPE_ADV_IND)
     && negb (ty =? BT_GAP_ADV_TYPE_ADV_DIRECT_IND)
  then ret tt
  else
    not_found <- lift (bt_data_parse ad device_name_found desired_name) ;;
    if (not_found : bool) then ret tt
    else
      printk (MsgDeviceFound addr rssi) ;;;
      if rssi <? -50 then ret tt
      else
        err <- bt_le_scan_stop h ;;
        if negb (err =? 0) then ret tt
        else connect_loop h addr 0 MAX_CONNECTIONS.

(** The release loop shared by [connected] and [disconnected]: the first
    slot holding [conn] is unreferenced and cleared, then the loop breaks. *)
Fixpoint release_loop (conn : bt_conn) (i n : nat) : M unit :=
  match n with
  | O => ret tt
  | S n' =>
      c <- get_conn i ;;
      if decide (c = Some conn)
      then bt_conn_unref conn ;;; set_conn i None
      else release_loop conn (S i) n'
  end.

(** [connected] *)
Definition connected (h : host) (conn : bt_conn) (err : Z) : M unit :=
  if negb (err =? 0) then
    printk (MsgFailedToConnect conn err) ;;;
    release_loop conn 0 MAX_CONNECTIONS ;;;
    start_scan h
  else printk (MsgConnected conn).

(** [disconnected] *)
Definition disconnected (h : host) (conn : bt_conn) (reason : Z) : M unit :=
  printk (MsgDisconnected conn reason) ;;;
  release_loop conn 0 MAX_CONNECTIONS ;;;
  start_scan h.

(** [main] *)
Definition main (h : host) : M unit :=
  err <- bt_enable h ;;
  if negb (err =? 0) then printk (MsgInitFailed err)
  else printk MsgInitialized ;;; start_scan h.

(** The state when [main] is entered: [conns] zero-initialised. *)
Definition initial_state : state :=
  State (replicate MAX_CONNECTIONS None) Idle [].

(** ** Events *)

(** The callbacks the host stack invokes. *)
Inductive event :=
| EvDeviceFound (addr : bt_addr_le_t) (rssi ty : Z) (ad : list bt_data)
| EvConnected (conn : bt_conn) (err : Z)
| EvDisconnected (conn : bt_conn) (reason : Z).

Definition handle (h : host) (ev : event) : M unit :=
  match ev with
  | EvDeviceFound addr rssi ty ad => device_found h addr rssi ty ad
  | EvConnected conn err => connected h conn err
  | EvDisconnected conn reason => disconnected h conn reason
  end.

(** What the state machine assumes of the host stack: it hands out a
    connection object only while the program holds no reference to it, so
    an object [bt_conn_le_create] returns is in no slot of [conns]. *)
Definition host_fresh (h : host) (st : state) : Prop :=
  create_ret h = 0 -> forall i, conns st !! i <> Some (Some (create_obj h)).

(** States the program can be in: after [main], and after each callback. *)
Inductive reachable : state -> Prop :=
| reachable_main h st :
    main h initial_state = Some (tt, st) -> reachable st
| reachable_step h ev st st' :
    reachable st -> host_fresh h st -> handle h ev st = Some (tt, st') ->
    reachable st'.

(** ** Vocabulary of the properties *)

(** The advertisement type is one of the two connectable ones. *)
Definition connectable (ty : Z) : Prop :=
  ty = BT_GAP_ADV_TYPE_ADV_IND \/ ty = BT_GAP_ADV_TYPE_ADV_DIRECT_IND.

(** The name filter stopped the parse: the target name was found. *)
Definition name_matches (ad : list bt_data) : Prop :=
  bt_data_parse ad device_name_found desired_name = Some false.

(** An advertisement the filter lets through. *)
Definition accepted (rssi ty : Z) (ad : list bt_data) : Prop :=
  connectable ty /\ name_matches ad /\ -50 <= rssi.

(** Slot [i] is NULL. *)
Definition slot_empty (st : state) (i : nat) : Prop :=
  conns st !! i = Some None.

(** Slot [i] holds the connection object [c]. *)
Definition slot_holds (st : state) (i : nat) (c : bt_conn) : Prop :=
  conns st !! i = Some (Some c).

(** The slots that are not NULL. *)
Definition occupied (l : list (option bt_conn)) : nat :=
  length (omap id l).

(** No connection object is in two slots. *)
Definition handles_unique (l : list (option bt_conn)) : Prop :=
  forall i j c, l !! i = Some (Some c) -> l !! j = Some (Some c) -> i = j.

(** The calls a callback added to the trace. *)
Definition emitted (st st' : state) (cs : list call) : Prop :=
  trace st' = trace st ++ cs.

(** What [start_scan] prints for a return value of [bt_le_scan_start]. *)
Definition scan_message (err : Z) : message :=
  if err =? 0 then MsgScanStarted else MsgScanFailed err.

(** The scanner after [start_scan]. *)
Definition scan_after_start (h : host) (s : scan_state) : scan_state :=
  if scan_start_ret h =? 0 then Scanning else s.

(** ** Derived states and predicates *)

(** What [device_found] does once it has found slot [k] NULL. *)
Definition connect_at (h : host) (addr : bt_addr_le_t) (k : nat)
    (st : state) : state :=
  if create_ret h =? 0 then
    State (<[k := Some (create_obj h)]> (conns st)) (scan st)
          (trace st ++ [BtConnLeCreate addr k])
  else
    State (conns st) (scan_after_start h (scan st))
          (trace st ++ [BtConnLeCreate addr k;
                        Printk (MsgCreateConnFailed addr (create_ret h));
                        BtLeScanStart;
                        Printk (scan_message (scan_start_ret h))]).

(** The state in which the slot search starts: the device was reported and
    the scan was stopped. *)
Definition scan_stopped (addr : bt_addr_le_t) (rssi : Z) (st : state)
  : state :=
  State (conns st) Idle
        (trace st ++ [Printk (MsgDeviceFound addr rssi); BtLeScanStop]).

(** A disconnect, or a connect result with a non-zero error, for [conn]. *)
Definition is_release (conn : bt_conn) (ev : event) : Prop :=
  match ev with
  | EvDisconnected c _ => c = conn
  | EvConnected c err => c = conn /\ err <> 0
  | EvDeviceFound _ _ _ _ => False
  end.

(** The line a release event prints first. *)
Definition release_banner (ev : event) : message :=
  match ev with
  | EvDisconnected c reason => MsgDisconnected c reason
  | EvConnected c err => MsgFailedToConnect c err
  | EvDeviceFound addr rssi _ _ => MsgDeviceFound addr rssi
  end.

#[local] Instance slot_holds_dec st j c : Decision (slot_holds st j c).
Proof. unfold slot_holds. apply _. Defined.

#[local] Instance slot_empty_dec st j : Decision (slot_empty st j).
Proof. unfold slot_empty. apply _. Defined.

(** The invariant of [conns]: six slots, no object in two of them. *)
Definition pool_inv (st : state) : Prop :=
  length (conns st) = MAX_CONNECTIONS /\ handles_unique (conns st).

(** ** Counting host calls *)

Definition is_scan_stop (c : call) : bool :=
  match c with BtLeScanStop => true | _ => false end.

Definition is_scan_start (c : call) : bool :=
  match c with BtLeScanStart => true | _ => false end.

Definition is_create (c : call) : bool :=
  match c with BtConnLeCreate _ _ => true | _ => false end.

Definition is_unref (c : call) : bool :=
  match c with BtConnUnref _ => true | _ => false end.

(** How many calls of [cs] satisfy [p]. *)
Definition count (p : call -> bool) (cs : list call) : nat :=
  length (List.filter p cs).

(** The device-found line and the lines of the failure paths, as calls. *)
Definition found_line (addr : bt_addr_le_t) (rssi : Z) : call :=
  Printk (MsgDeviceFound addr rssi).

Definition create_failed_line (h : host) (addr : bt_addr_le_t) : call :=
  Printk (MsgCreateConnFailed addr (create_ret h)).

Definition scan_line (h : host) : call :=
  Printk (scan_message (scan_start_ret h)).

(** ** Concrete inputs *)

(** A complete-local-name field carrying the characters of [s]. *)
Definition name_field (s : string) : bt_data :=
  BtData BT_DATA_NAME_COMPLETE (list_byte_of_string s).

(** A host on which every call succeeds; it creates object 1. *)
Definition host_ok : host := Host 0 0 0 0 1%positive.
(** A host whose [bt_le_scan_stop] fails with -EIO. *)
Definition host_stop_fails : host := Host 0 (-5) 0 0 1%positive.
(** A host whose [bt_le_scan_start] fails with -EIO. *)
Definition host_start_fails : host := Host 0 0 (-5) 0 2%positive.
(** A host whose [bt_conn_le_create] fails with -ENOMEM. *)
Definition host_create_fails : host := Host 0 0 0 (-12) 1%positive.
(** A host whose [bt_conn_le_create] and [bt_le_scan_start] both fail. *)
Definition host_create_start_fail : host := Host 0 0 (-5) (-12) 1%positive.

(** The state after [main] on [host_ok]. *)
Definition booted : state :=
  State (replicate MAX_CONNECTIONS None) Scanning
        [BtEnable; Printk MsgInitialized; BtLeScanStart;
         Printk MsgScanStarted].

(** The state after [booted] has seen a near device named DXC at address
    17: object 1 sits in slot 0 and the scan is stopped. *)
Definition one_pending : state :=
  State (Some 1%positive :: replicate 5 None) Idle
        (trace booted ++ [Printk (MsgDeviceFound 17 (-40)); BtLeScanStop;
                          BtConnLeCreate 17 0]).

(** A state whose six slots hold the objects 1 to 6. *)
Definition all_taken : state :=
  State (Some <$> [1; 2; 3; 4; 5; 6]%positive) Idle [].

(** ** The name comparison *)

Lemma byte_to_N_inj (a b : byte) : Byte.to_N a = Byte.to_N b -> a = b.
Proof.
  intros E. apply (f_equal Byte.of_N) in E.
  rewrite !Byte.of_to_N in E. congruence.
Qed.

Lemma byte_eqb_true (a b : byte) : Byte.eqb a b = true <-> a = b.
Proof. split; [apply Byte.byte_dec_bl | apply Byte.byte_dec_lb]. Qed.

Lemma byte_eqb_false (a b : byte) : Byte.eqb a b = false <-> a <> b.
Proof.
  split; [apply Byte.eqb_false|].
  intros N. destruct (Byte.eqb a b) eqn:E; [|done].
  apply byte_eqb_true in E. done.
Qed.

(** [strncmp] stays inside both buffers when the first is NUL-terminated
    and the count is the length of the second. *)
Lemma strncmp_defined (name s2 : list byte) :
  is_Some (strncmp (name ++ [x00]) s2 (length s2)).
Proof.
  revert s2. induction name as [|a name IH]; intros [|c2 t2]; simpl; eauto.
  - destruct (Byte.eqb x00 c2); eauto.
  - destruct (Byte.eqb a c2); [|eauto].
    destruct (Byte.eqb a x00); eauto.
Qed.

(** [strncmp] over the advertised length returns 0 exactly when the
    advertised bytes are a prefix of the NUL-terminated target, or extend
    it. *)
Lemma strncmp_zero_iff (name s2 : list byte) :
  x00 ∉ name ->
  strncmp (name ++ [x00]) s2 (length s2) = Some 0 <->
  s2 `prefix_of` (name ++ [x00]) \/ (name ++ [x00]) `prefix_of` s2.
Proof.
  revert s2. induction name as [|a name IH]; intros [|c2 t2] Hnul; simpl.
  - split; [intros _; left; apply prefix_nil | done].
  - destruct (Byte.eqb x00 c2) eqn:E.
    + apply byte_eqb_true in E. subst c2. split; [|done].
      intros _. right. exists t2. done.
    + apply byte_eqb_false in E. split.
      * intros [= D]. exfalso. apply E, byte_to_N_inj, N2Z.inj. simpl in *. lia.
      * intros [[k Hk]|[k Hk]]; simplify_eq/=.
  - split; [intros _; left; apply prefix_nil | done].
  - apply not_elem_of_cons in Hnul as [Ha Hnul].
    destruct (Byte.eqb a c2) eqn:E.
    + apply byte_eqb_true in E. subst c2.
      destruct (Byte.eqb a x00) eqn:E0.
      { apply byte_eqb_true in E0. congruence. }
      rewrite (IH t2 Hnul). split.
      * intros [H|H]; [left|right]; by apply prefix_cons.
      * intros [H|H]; [left|right]; by apply prefix_cons_inv_2 in H.
    + apply byte_eqb_false in E. split.
      * intros [= D]. exfalso. apply E, byte_to_N_inj, N2Z.inj. simpl in *. lia.
      * intros [H|H]; apply prefix_cons_inv_1 in H; congruence.
Qed.

Lemma desired_name_no_nul : x00 ∉ list_byte_of_string "DXC".
Proof.
  change (list_byte_of_string "DXC") with [x44; x58; x43].
  rewrite !not_elem_of_cons. repeat split; try done. apply not_elem_of_nil.
Qed.

(** The callback never faults on the program's target name. *)
Lemma device_name_found_defined (d : bt_data) :
  is_Some (device_name_found d desired_name).
Proof.
  unfold device_name_found. destruct (type d =? BT_DATA_NAME_COMPLETE); [|eauto].
  destruct (strncmp_defined (list_byte_of_string "DXC") (data d)) as [r Hr].
  unfold desired_name, c_string, data_len. rewrite Hr.
  destruct (r =? 0); eauto.
Qed.

Lemma bt_data_parse_defined (ad : list bt_data) :
  is_Some (bt_data_parse ad device_name_found desired_name).
Proof.
  induction ad as [|d ad IH]; simpl; [eauto|].
  destruct (device_name_found_defined d) as [[] ->]; eauto.
Qed.

(** A complete-name field passes the callback's test exactly when its
    bytes are a prefix of ["DXC\0"] or begin with ["DXC\0"]. *)
Lemma device_name_found_stops (d : bt_data) :
  device_name_found d desired_name = Some false <->
  type d = BT_DATA_NAME_COMPLETE /\
  (data d `prefix_of` desired_name \/ desired_name `prefix_of` data d).
Proof.
  unfold device_name_found, desired_name, c_string, data_len.
  rewrite <- strncmp_zero_iff by apply desired_name_no_nul.
  destruct (Z.eqb_spec (type d) BT_DATA_NAME_COMPLETE) as [Ht|Ht].
  - destruct (strncmp _ _ _) as [r|].
    + destruct (Z.eqb_spec r 0) as [->|Hr]; split; try done.
      intros [_ [= ?]]. done.
    + split; [done|]. intros [_ [=]].
  - split; [done|]. intros [? _]. done.
Qed.

(** A name that continues after an embedded NUL is accepted too: the
    comparison stops at the NUL both strings share. *)
Lemma embedded_nul_name_accepted :
  name_matches [BtData BT_DATA_NAME_COMPLETE [x44; x58; x43; x00; x58]].
Proof. reflexivity. Qed.

(** The empty name is accepted: [strncmp] over zero characters is 0. *)
Lemma empty_name_accepted : name_matches [name_field ""].
Proof. reflexivity. Qed.

(** ** Closed forms of the building blocks *)

Lemma start_scan_run (h : host) (st : state) :
  start_scan h st =
  Some (tt, State (conns st) (scan_after_start h (scan st))
                  (trace st ++ [BtLeScanStart;
                                Printk (scan_message (scan_start_ret h))])).
Proof.
  unfold start_scan, bt_le_scan_start, scan_after_start, scan_message,
    bind, emit, printk, emit, set_scan, ret.
  simpl. destruct (scan_start_ret h =? 0) eqn:E; simpl; rewrite ?E; simpl;
    by rewrite <- app_assoc.
Qed.

(** The release loop when no slot it visits holds [conn]. *)
Lemma release_loop_miss (conn : bt_conn) (n : nat) :
  forall (i : nat) (st : state),
    (forall j, (i <= j < i + n)%nat -> ~ slot_holds st j conn) ->
    release_loop conn i n st = Some (tt, st).
Proof.
  induction n as [|n IH]; intros i st Hmiss; [done|].
  simpl. unfold bind at 1, get_conn.
  destruct (decide (default None (conns st !! i) = Some conn)) as [E|E].
  - exfalso. apply (Hmiss i); [lia|].
    unfold slot_holds. by destruct (conns st !! i) as [[x|]|]; simplify_eq/=.
  - apply IH. intros j Hj. apply Hmiss. lia.
Qed.

(** The release loop when [k] is the first slot it visits that holds
    [conn]: one unref, slot [k] cleared, nothing else touched. *)
Lemma release_loop_hit (conn : bt_conn) (n : nat) :
  forall (i k : nat) (st : state),
    (i <= k < i + n)%nat ->
    slot_holds st k conn ->
    (forall j, (i <= j < k)%nat -> ~ slot_holds st j conn) ->
    release_loop conn i n st =
    Some (tt, State (<[k := None]> (conns st)) (scan st)
                    (trace st ++ [BtConnUnref conn])).
Proof.
  induction n as [|n IH]; intros i k st Hk Hhold Hfirst; [lia|].
  simpl. unfold bind at 1, get_conn.
  destruct (decide (default None (conns st !! i) = Some conn)) as [E|E].
  - assert (slot_holds st i conn) as Hi.
    { unfold slot_holds. by destruct (conns st !! i) as [[x|]|]; simplify_eq/=. }
    destruct (decide (i = k)) as [->|Hne]; [done|].
    exfalso. apply (Hfirst i); [lia|done].
  - destruct (decide (i = k)) as [->|Hne].
    { unfold slot_holds in Hhold. rewrite Hhold in E. done. }
    apply IH; [lia|done|]. intros j Hj. apply Hfirst. lia.
Qed.

(** The slot search when [k] is the first NULL slot it visits. *)
Lemma connect_loop_first (h : host) (addr : bt_addr_le_t) (n : nat) :
  forall (i k : nat) (st : state),
    (i <= k < i + n)%nat ->
    slot_empty st k ->
    (forall j, (i <= j < k)%nat -> ~ slot_empty st j) ->
    connect_loop h addr i n st = Some (tt, connect_at h addr k st).
Proof.
  induction n as [|n IH]; intros i k st Hk Hempty Hfirst; [lia|].
  simpl. unfold bind at 1, get_conn.
  destruct (conns st !! i) as [[c|]|] eqn:E; simpl.
  - destruct (decide (i = k)) as [->|Hne].
    { unfold slot_empty in Hempty. congruence. }
    apply IH; [lia|done|]. intros j Hj. apply Hfirst. lia.
  - destruct (decide (i = k)) as [->|Hne].
    2:{ exfalso. apply (Hfirst i); [lia|done]. }
    unfold connect_at, bt_conn_le_create, bind, emit, set_conn, ret, printk, emit.
    simpl. destruct (create_ret h =? 0) eqn:Ec; simpl; rewrite ?Ec; simpl;
      [done|].
    rewrite start_scan_run. simpl. by rewrite <- !app_assoc.
  - apply lookup_ge_None in E. apply lookup_lt_Some in Hempty. lia.
Qed.

(** The slot search when every slot it visits is taken. *)
Lemma connect_loop_full (h : host) (addr : bt_addr_le_t) (n : nat) :
  forall (i : nat) (st : state),
    (forall j, (i <= j < i + n)%nat -> exists c, slot_holds st j c) ->
    connect_loop h addr i n st =
    Some (tt, State (conns st) (scan_after_start h (scan st))
                    (trace st ++ [Printk MsgNoSlots; BtLeScanStart;
                                  Printk (scan_message (scan_start_ret h))])).
Proof.
  induction n as [|n IH]; intros i st Hfull.
  - simpl. unfold bind, printk, emit. rewrite start_scan_run. simpl.
    by rewrite <- app_assoc.
  - simpl. unfold bind at 1, get_conn.
    destruct (Hfull i) as [c Hc]; [lia|]. unfold slot_holds in Hc.
    rewrite Hc. simpl. apply IH. intros j Hj. apply Hfull. lia.
Qed.

(** The slot search in full: it either connects at the first NULL slot it
    visits or finds every visited slot taken. *)
Lemma connect_loop_cases (h : host) (addr : bt_addr_le_t) (n : nat) :
  forall (i : nat) (st : state),
    (exists k, (i <= k < i + n)%nat /\
       default None (conns st !! k) = None /\
       (forall j, (i <= j < k)%nat -> exists c, slot_holds st j c) /\
       connect_loop h addr i n st = Some (tt, connect_at h addr k st)) \/
    ((forall j, (i <= j < i + n)%nat -> exists c, slot_holds st j c) /\
     connect_loop h addr i n st =
     Some (tt, State (conns st) (scan_after_start h (scan st))
                     (trace st ++ [Printk MsgNoSlots; BtLeScanStart;
                                   Printk (scan_message (scan_start_ret h))]))).
Proof.
  induction n as [|n IH]; intros i st.
  - right. split; [intros j Hj; lia|].
    apply connect_loop_full. intros j Hj. lia.
  - destruct (default None (conns st !! i)) as [c|] eqn:E.
    + assert (slot_holds st i c) as Hi.
      { unfold slot_holds. by destruct (conns st !! i) as [[x|]|]; simplify_eq/=. }
      assert (connect_loop h addr i (S n) st = connect_loop h addr (S i) n st)
        as Hstep.
      { simpl. unfold bind at 1, get_conn. by rewrite E. }
      rewrite Hstep.
      destruct (IH (S i) st) as [(k & Hk & Hnull & Hbefore & Hrun)|[Hall Hrun]].
      * left. exists k. split; [lia|]. split; [done|]. split; [|done].
        intros j Hj. destruct (decide (j = i)) as [->|]; [eauto|].
        apply Hbefore. lia.
      * right. split; [|done]. intros j Hj.
        destruct (decide (j = i)) as [->|]; [eauto|]. apply Hall. lia.
    + left. exists i. split; [lia|]. split; [done|].
      split; [intros j Hj; lia|].
      simpl. unfold bind at 1, get_conn. rewrite E.
      unfold connect_at, bt_conn_le_create, bind, emit, set_conn, ret,
        printk, emit.
      simpl. destruct (create_ret h =? 0) eqn:Ec; simpl; rewrite ?Ec; simpl;
        [done|].
      rewrite start_scan_run. simpl. by rewrite <- !app_assoc.
Qed.

(** ** Closed forms of [device_found] *)

(* From here on the loops are used through the lemmas above. *)
Arguments connect_loop : simpl never.
Arguments release_loop : simpl never.
Arguments start_scan : simpl never.

Lemma connectable_test (ty : Z) :
  negb (ty =? BT_GAP_ADV_TYPE_ADV_IND)
  && negb (ty =? BT_GAP_ADV_TYPE_ADV_DIRECT_IND) = false <-> connectable ty.
Proof.
  unfold connectable.
  destruct (Z.eqb_spec ty BT_GAP_ADV_TYPE_ADV_IND),
    (Z.eqb_spec ty BT_GAP_ADV_TYPE_ADV_DIRECT_IND); simpl; intuition congruence.
Qed.

Lemma not_connectable_test (ty : Z) :
  ~ connectable ty ->
  negb (ty =? BT_GAP_ADV_TYPE_ADV_IND)
  && negb (ty =? BT_GAP_ADV_TYPE_ADV_DIRECT_IND) = true.
Proof.
  intros H. apply not_false_iff_true. by rewrite connectable_test.
Qed.

Lemma not_name_matches (ad : list bt_data) :
  ~ name_matches ad ->
  bt_data_parse ad device_name_found desired_name = Some true.
Proof.
  unfold name_matches. destruct (bt_data_parse_defined ad) as [[] ->]; done.
Qed.

Lemma device_found_not_connectable h addr rssi ty ad st :
  ~ connectable ty -> device_found h addr rssi ty ad st = Some (tt, st).
Proof.
  intros H. unfold device_found. by rewrite not_connectable_test.
Qed.

Lemma device_found_no_name h addr rssi ty ad st :
  ~ name_matches ad -> device_found h addr rssi ty ad st = Some (tt, st).
Proof.
  intros H. unfold device_found.
  destruct (_ && _); [done|].
  unfold bind, lift. by rewrite not_name_matches.
Qed.

Lemma device_found_far h addr rssi ty ad st :
  connectable ty -> name_matches ad -> rssi < -50 ->
  device_found h addr rssi ty ad st =
  Some (tt, State (conns st) (scan st)
                  (trace st ++ [Printk (MsgDeviceFound addr rssi)])).
Proof.
  intros Hty Hname Hrssi. unfold device_found.
  apply connectable_test in Hty. rewrite Hty.
  unfold bind, lift. rewrite Hname. unfold printk, emit. simpl.
  destruct (Z.ltb_spec rssi (-50)); [done|lia].
Qed.

Lemma device_found_stop_failed h addr rssi ty ad st :
  accepted rssi ty ad -> scan_stop_ret h <> 0 ->
  device_found h addr rssi ty ad st =
  Some (tt, State (conns st) (scan st)
                  (trace st ++ [Printk (MsgDeviceFound addr rssi);
                                BtLeScanStop])).
Proof.
  intros (Hty & Hname & Hrssi) Hstop. unfold device_found.
  apply connectable_test in Hty. rewrite Hty.
  unfold bind, lift. rewrite Hname. unfold printk, emit. simpl.
  destruct (Z.ltb_spec rssi (-50)); [lia|].
  unfold bt_le_scan_stop, bind, emit, ret. simpl.
  apply Z.eqb_neq in Hstop. rewrite Hstop. simpl. rewrite Hstop. simpl.
  by rewrite <- app_assoc.
Qed.

Lemma device_found_stop_ok h addr rssi ty ad st :
  accepted rssi ty ad -> scan_stop_ret h = 0 ->
  device_found h addr rssi ty ad st =
  connect_loop h addr 0 MAX_CONNECTIONS (scan_stopped addr rssi st).
Proof.
  intros (Hty & Hname & Hrssi) Hstop. unfold device_found.
  apply connectable_test in Hty. rewrite Hty.
  unfold bind, lift. rewrite Hname. unfold printk, emit. simpl.
  destruct (Z.ltb_spec rssi (-50)); [lia|].
  unfold bt_le_scan_stop, bind, emit, ret, set_scan. simpl.
  rewrite Hstop. simpl. unfold scan_stopped. by rewrite <- app_assoc.
Qed.

(** ** Closed forms of the release events *)

Lemma handle_release (h : host) (conn : bt_conn) (ev : event) (st : state) :
  is_release conn ev ->
  handle h ev st =
  (printk (release_banner ev) ;;;
   release_loop conn 0 MAX_CONNECTIONS ;;;
   start_scan h) st.
Proof.
  destruct ev as [| c err | c reason ]; simpl; [done| |].
  - intros [-> Herr]. unfold connected.
    apply Z.eqb_neq in Herr. by rewrite Herr.
  - by intros ->.
Qed.

Lemma handle_release_miss (h : host) (conn : bt_conn) (ev : event)
    (st : state) :
  is_release conn ev ->
  (forall j, (j < MAX_CONNECTIONS)%nat -> ~ slot_holds st j conn) ->
  handle h ev st =
  Some (tt, State (conns st) (scan_after_start h (scan st))
                  (trace st ++ [Printk (release_banner ev); BtLeScanStart;
                                Printk (scan_message (scan_start_ret h))])).
Proof.
  intros Hev Hmiss. rewrite (handle_release h conn) by done.
  unfold bind at 1, printk, emit. unfold bind.
  rewrite release_loop_miss by (intros j Hj; apply Hmiss; lia).
  rewrite start_scan_run. simpl. by rewrite <- app_assoc.
Qed.

Lemma handle_release_hit (h : host) (conn : bt_conn) (ev : event)
    (st : state) (k : nat) :
  is_release conn ev ->
  (k < MAX_CONNECTIONS)%nat ->
  slot_holds st k conn ->
  (forall j, (j < k)%nat -> ~ slot_holds st j conn) ->
  handle h ev st =
  Some (tt, State (<[k := None]> (conns st)) (scan_after_start h (scan st))
                  (trace st ++ [Printk (release_banner ev); BtConnUnref conn;
                                BtLeScanStart;
                                Printk (scan_message (scan_start_ret h))])).
Proof.
  intros Hev Hk Hhold Hfirst. rewrite (handle_release h conn) by done.
  unfold bind at 1, printk, emit. unfold bind.
  rewrite (release_loop_hit conn MAX_CONNECTIONS 0 k);
    [|lia|done|intros j Hj; apply Hfirst; lia].
  rewrite start_scan_run. simpl. by rewrite <- !app_assoc.
Qed.

(** Among the slots below [n], either one is the first to satisfy [P] or
    none satisfies it. *)
Lemma first_slot (P : nat -> Prop) `{!forall j, Decision (P j)} (n : nat) :
  (exists k, (k < n)%nat /\ P k /\ forall j, (j < k)%nat -> ~ P j) \/
  (forall j, (j < n)%nat -> ~ P j).
Proof.
  induction n as [|n [(k & Hk & HP & Hfirst)|Hnone]].
  - right. intros j Hj. lia.
  - left. exists k. split; [lia|done].
  - destruct (decide (P n)) as [HP|HP].
    + left. exists n. split; [lia|done].
    + right. intros j Hj. destruct (decide (j = n)) as [->|]; [done|].
      apply Hnone. lia.
Qed.

(** A release event returns, having cleared the first slot that holds
    [conn], or nothing when no slot holds it. *)
Lemma handle_release_cases (h : host) (conn : bt_conn) (ev : event)
    (st : state) :
  is_release conn ev ->
  exists st', handle h ev st = Some (tt, st') /\
    scan st' = scan_after_start h (scan st) /\
    ((conns st' = conns st /\
      forall j, (j < MAX_CONNECTIONS)%nat -> ~ slot_holds st j conn) \/
     (exists k, (k < MAX_CONNECTIONS)%nat /\ slot_holds st k conn /\
        (forall j, (j < k)%nat -> ~ slot_holds st j conn) /\
        conns st' = <[k := None]> (conns st))).
Proof.
  intros Hev.
  destruct (first_slot (fun j => slot_holds st j conn) MAX_CONNECTIONS)
    as [(k & Hk & Hhold & Hfirst)|Hnone].
  - rewrite (handle_release_hit h conn ev st k) by done.
    eexists; split; [done|]. split; [done|]. right. exists k. done.
  - rewrite (handle_release_miss h conn ev st) by done.
    eexists; split; [done|]. split; [done|]. by left.
Qed.

(** A connect result without error only prints. *)
Lemma connected_ok_run (h : host) (conn : bt_conn) (st : state) :
  connected h conn 0 st =
  Some (tt, State (conns st) (scan st)
                  (trace st ++ [Printk (MsgConnected conn)])).
Proof. done. Qed.

(** ** What one callback can do to [conns] *)

(** Every callback returns, and leaves [conns] as it was, or with one NULL
    slot filled by the object the host created, or with one slot cleared. *)
Lemma handle_conns (h : host) (ev : event) (st : state) :
  exists st', handle h ev st = Some (tt, st') /\
    (conns st' = conns st \/
     (exists k, slot_empty st k /\ create_ret h = 0 /\
        conns st' = <[k := Some (create_obj h)]> (conns st)) \/
     (exists k, conns st' = <[k := None]> (conns st))).
Proof.
  destruct ev as [addr rssi ty ad | conn err | conn reason].
  - simpl.
    destruct (decide (connectable ty)) as [Hty|Hty].
    2:{ rewrite device_found_not_connectable by done. eauto. }
    destruct (decide (name_matches ad)) as [Hname|Hname].
    2:{ rewrite device_found_no_name by done. eauto. }
    destruct (Z.lt_ge_cases rssi (-50)) as [Hrssi|Hrssi].
    { rewrite device_found_far by done. eauto. }
    destruct (decide (scan_stop_ret h = 0)) as [Hstop|Hstop].
    2:{ rewrite device_found_stop_failed by done. eauto. }
    rewrite device_found_stop_ok by done.
    destruct (connect_loop_cases h addr MAX_CONNECTIONS 0
                (scan_stopped addr rssi st))
      as [(k & Hk & Hnull & Hbefore & ->)|[Hall ->]]; [|eauto].
    eexists; split; [done|]. unfold connect_at.
    destruct (Z.eqb_spec (create_ret h) 0) as [Hc|Hc]; simpl; [|eauto].
    simpl in Hnull.
    destruct (conns st !! k) as [[c|]|] eqn:E; simplify_eq/=.
    + right; left. exists k. done.
    + left. apply list_insert_ge. by apply lookup_ge_None.
  - destruct (Z.eq_dec err 0) as [->|Herr].
    { simpl. rewrite connected_ok_run. eauto. }
    destruct (handle_release_cases h conn (EvConnected conn err) st)
      as (st' & -> & _ & [[Hc _]|(k & _ & _ & _ & Hc)]); [done| |];
      eexists; eauto 6.
  - destruct (handle_release_cases h conn (EvDisconnected conn reason) st)
      as (st' & -> & _ & [[Hc _]|(k & _ & _ & _ & Hc)]); [done| |];
      eexists; eauto 6.
Qed.

(** ** The pool invariant *)

Lemma occupied_le_length (l : list (option bt_conn)) :
  (occupied l <= length l)%nat.
Proof.
  unfold occupied. induction l as [|[c|] l IH]; cbn in *; lia.
Qed.

Lemma handles_unique_clear (l : list (option bt_conn)) (k : nat) :
  handles_unique l -> handles_unique (<[k := None]> l).
Proof.
  intros Hu i j c Hi Hj.
  rewrite list_lookup_insert_Some in Hi, Hj.
  destruct Hi as [(_ & ? & _)|[_ Hi]]; [done|].
  destruct Hj as [(_ & ? & _)|[_ Hj]]; [done|].
  by apply (Hu i j c).
Qed.

Lemma handles_unique_fill (l : list (option bt_conn)) (k : nat)
    (c : bt_conn) :
  handles_unique l -> (forall i, l !! i <> Some (Some c)) ->
  handles_unique (<[k := Some c]> l).
Proof.
  intros Hu Hfresh i j c' Hi Hj.
  rewrite list_lookup_insert_Some in Hi, Hj.
  destruct Hi as [(Hik & Hi & _)|[Hik Hi]],
    Hj as [(Hjk & Hj & _)|[Hjk Hj]]; simplify_eq.
  - done.
  - by destruct (Hfresh j).
  - by destruct (Hfresh i).
  - by apply (Hu i j c').
Qed.

Lemma pool_inv_initial : pool_inv initial_state.
Proof.
  split; [done|]. intros i j c Hi _.
  unfold initial_state, conns in Hi.
  apply lookup_replicate in Hi as [[=] _].
Qed.

Lemma main_conns (h : host) (st : state) :
  main h initial_state = Some (tt, st) -> conns st = conns initial_state.
Proof.
  unfold main, bt_enable, bind, emit, ret, printk, emit. simpl.
  destruct (negb (enable_ret h =? 0)); [by intros [= <-]|].
  rewrite start_scan_run. by intros [= <-].
Qed.

Lemma pool_inv_step (h : host) (ev : event) (st st' : state) :
  pool_inv st -> host_fresh h st -> handle h ev st = Some (tt, st') ->
  pool_inv st'.
Proof.
  intros [Hlen Hu] Hfresh Hrun.
  destruct (handle_conns h ev st)
    as (st2 & Hrun2 & [Hc|[(k & Hk & Hret & Hc)|(k & Hc)]]);
    rewrite Hrun in Hrun2; injection Hrun2 as <-; unfold pool_inv;
    rewrite Hc, ?length_insert.
  - done.
  - split; [done|]. apply handles_unique_fill; [done|]. by apply Hfresh.
  - split; [done|]. by apply handles_unique_clear.
Qed.

Lemma reachable_pool_inv (st : state) : reachable st -> pool_inv st.
Proof.
  induction 1 as [h st Hmain|h ev st st' _ IH Hfresh Hrun].
  - destruct pool_inv_initial as [Hlen Hu].
    unfold pool_inv. by rewrite (main_conns h st Hmain).
  - by apply (pool_inv_step h ev st st').
Qed.

(** ** Accepted advertisements *)

(** With the scan stopped and some slot NULL, [device_found] connects at
    the first NULL slot. *)
Lemma device_found_first_empty h addr rssi ty ad st :
  accepted rssi ty ad -> scan_stop_ret h = 0 ->
  (exists i, (i < MAX_CONNECTIONS)%nat /\ slot_empty st i) ->
  exists k, (k < MAX_CONNECTIONS)%nat /\ slot_empty st k /\
    (forall j, (j < k)%nat -> ~ slot_empty st j) /\
    device_found h addr rssi ty ad st =
    Some (tt, connect_at h addr k (scan_stopped addr rssi st)).
Proof.
  intros Hacc Hstop (i & Hi & Hempty).
  rewrite device_found_stop_ok by done.
  destruct (first_slot (fun j => slot_empty st j) MAX_CONNECTIONS)
    as [(k & Hk & Hnull & Hfirst)|Hnone]; [|by destruct (Hnone i)].
  exists k. split; [done|]. split; [done|]. split; [done|].
  apply connect_loop_first; [lia|done|].
  intros j Hj. apply Hfirst. lia.
Qed.

(** With the scan stopped and every slot taken, [device_found] reports it
    and calls [start_scan]. *)
Lemma device_found_full h addr rssi ty ad st :
  accepted rssi ty ad -> scan_stop_ret h = 0 ->
  (forall i, (i < MAX_CONNECTIONS)%nat -> exists c, slot_holds st i c) ->
  device_found h addr rssi ty ad st =
  Some (tt, State (conns st) (scan_after_start h Idle)
                  (trace st ++ [Printk (MsgDeviceFound addr rssi);
                                BtLeScanStop; Printk MsgNoSlots;
                                BtLeScanStart;
                                Printk (scan_message (scan_start_ret h))])).
Proof.
  intros Hacc Hstop Hfull.
  rewrite device_found_stop_ok by done.
  rewrite connect_loop_full by (intros j Hj; apply Hfull; lia).
  simpl. by rewrite <- app_assoc.
Qed.

Lemma scan_after_start_ok (h : host) (s : scan_state) :
  scan_start_ret h = 0 -> scan_after_start h s = Scanning.
Proof. unfold scan_after_start. by intros ->. Qed.

Lemma scan_after_start_failed (h : host) (s : scan_state) :
  scan_start_ret h <> 0 -> scan_after_start h s = s.
Proof.
  unfold scan_after_start. intros H. apply Z.eqb_neq in H. by rewrite H.
Qed.

(** ** The concrete states are reachable *)

Lemma reachable_booted : reachable booted.
Proof. by apply (reachable_main host_ok). Qed.

Lemma host_ok_fresh_booted : host_fresh host_ok booted.
Proof.
  intros _ i. unfold booted, conns. intros Hi.
  apply lookup_replicate in Hi as [[=] _].
Qed.

Lemma reachable_one_pending : reachable one_pending.
Proof.
  apply (reachable_step host_ok
           (EvDeviceFound 17 (-40) BT_GAP_ADV_TYPE_ADV_IND [name_field "DXC"])
           booted); [apply reachable_booted|apply host_ok_fresh_booted|done].
Qed.

Lemma accepted_near_DXC :
  accepted (-40) BT_GAP_ADV_TYPE_ADV_IND [name_field "DXC"].
Proof. split; [by left|split; [done|lia]]. Qed.

(** ** The name filter (C1) *)

(** A longer advertised name such as DXCX is rejected: the comparison
    reaches the NUL that ends the target. *)
Lemma longer_name_rejected : ~ name_matches [name_field "DXCX"].
Proof. vm_compute. discriminate. Qed.

(** The exact name is accepted. *)
Lemma exact_name_accepted : name_matches [name_field "DXC"].
Proof. done. Qed.

(** C1, on the code: the filter does not require the advertised name to
    have the target's length.  An advertisement whose complete local name
    is DX, a strict prefix of the target DXC, passes the filter, and
    [device_found] stops the scan and creates a connection for it in slot
    0. *)
Theorem device_found_accepts_name_prefix :
  name_matches [name_field "DX"] /\
  device_found host_ok 17 (-40) BT_GAP_ADV_TYPE_ADV_IND [name_field "DX"]
    booted =
  Some (tt, State (Some 1%positive :: replicate 5 None) Idle
                  (trace booted ++ [Printk (MsgDeviceFound 17 (-40));
                                    BtLeScanStop; BtConnLeCreate 17 0])).
Proof. split; reflexivity. Qed.

(** ** Rejected advertisements (C2, C3) *)

(** C2: an advertisement that is not connectable, or in which the filter
    does not find the target name, leaves the whole state as it was: no
    slot of [conns] changes, the scanner is untouched and no call is
    made. *)
Theorem device_found_rejected_unchanged h addr rssi ty ad st :
  ~ name_matches ad \/ ~ connectable ty ->
  device_found h addr rssi ty ad st = Some (tt, st).
Proof.
  intros [Hname|Hty].
  - by apply device_found_no_name.
  - by apply device_found_not_connectable.
Qed.

Lemma device_found_rejected_unchanged_witness :
  ~ name_matches [name_field "ABC"] /\
  device_found host_ok 17 (-40) BT_GAP_ADV_TYPE_ADV_IND [name_field "ABC"]
    booted = Some (tt, booted).
Proof.
  assert (~ name_matches [name_field "ABC"]) as H
    by (vm_compute; discriminate).
  split; [exact H|].
  apply (device_found_rejected_unchanged host_ok 17 (-40)
           BT_GAP_ADV_TYPE_ADV_IND [name_field "ABC"] booted).
  left. exact H.
Defined.

(** C3: an advertisement in which the filter finds the target name but
    whose rssi is below -50 is rejected: [device_found] returns with
    [conns] and the scanner unchanged, and the only call it makes is the
    print of the found device (none when the type is not connectable).
    The rssi test comes after the name test: the found line, printed
    between the two, is there, and an advertisement without the name is
    dropped the same way whatever its rssi. *)
Theorem device_found_weak_signal h addr rssi ty ad st :
  name_matches ad -> rssi < -50 ->
  (exists st',
     device_found h addr rssi ty ad st = Some (tt, st') /\
     conns st' = conns st /\ scan st' = scan st /\
     emitted st st' (if decide (connectable ty)
                     then [Printk (MsgDeviceFound addr rssi)] else [])) /\
  (forall ad' rssi',
     ~ name_matches ad' ->
     device_found h addr rssi' ty ad' st = Some (tt, st)).
Proof.
  intros Hname Hrssi. split.
  - destruct (decide (connectable ty)) as [Hty|Hty].
    + rewrite device_found_far by done. eexists. by split_and!.
    + rewrite device_found_not_connectable by done.
      exists st. split_and!; try done. unfold emitted. by rewrite app_nil_r.
  - intros ad' rssi' Hno. by apply device_found_no_name.
Qed.

Lemma device_found_weak_signal_witness :
  exists st',
    device_found host_ok 17 (-60) BT_GAP_ADV_TYPE_ADV_IND [name_field "DXC"]
      booted = Some (tt, st') /\
    conns st' = conns booted /\ scan st' = Scanning.
Proof.
  destruct (device_found_weak_signal host_ok 17 (-60) BT_GAP_ADV_TYPE_ADV_IND
              [name_field "DXC"] booted)
    as [(st' & Hrun & Hconns & Hscan & _) _].
  - reflexivity.
  - lia.
  - exists st'. split; [exact Hrun|]. split; [exact Hconns|exact Hscan].
Defined.

(** ** Stopping the scan first (C4) *)

(** C4: for an accepted advertisement the calls [device_found] makes
    begin with the found line and then [bt_le_scan_stop]; every
    [bt_conn_le_create] comes later and only when the stop returned 0.
    When the stop fails nothing follows it and [conns] is unchanged. *)
Theorem scan_stop_precedes_connect h addr rssi ty ad st :
  accepted rssi ty ad ->
  exists st' rest,
    device_found h addr rssi ty ad st = Some (tt, st') /\
    emitted st st'
      (Printk (MsgDeviceFound addr rssi) :: BtLeScanStop :: rest) /\
    (forall a i, BtConnLeCreate a i ∈ rest -> scan_stop_ret h = 0) /\
    (scan_stop_ret h <> 0 -> rest = [] /\ conns st' = conns st).
Proof.
  intros Hacc.
  destruct (decide (scan_stop_ret h = 0)) as [Hstop|Hstop].
  - rewrite device_found_stop_ok by done.
    destruct (connect_loop_cases h addr MAX_CONNECTIONS 0
                (scan_stopped addr rssi st))
      as [(k & _ & _ & _ & ->)|[_ ->]].
    + unfold connect_at.
      destruct (create_ret h =? 0); eexists; eexists;
        (split; [done|]); unfold emitted; simpl; rewrite <- app_assoc;
        simpl; (split; [reflexivity|]); by split.
    + eexists; eexists; split; [done|]. unfold emitted; simpl.
      rewrite <- app_assoc; simpl. split; [reflexivity|]. by split.
  - rewrite device_found_stop_failed by done.
    exists (State (conns st) (scan st)
              (trace st ++ [Printk (MsgDeviceFound addr rssi); BtLeScanStop])),
      [].
    split; [done|]. split; [done|]. split; [|done].
    intros a i Hin. by apply elem_of_nil in Hin.
Qed.

Lemma scan_stop_precedes_connect_witness :
  exists st' rest,
    device_found host_stop_fails 17 (-40) BT_GAP_ADV_TYPE_ADV_IND
      [name_field "DXC"] booted = Some (tt, st') /\
    emitted booted st'
      (Printk (MsgDeviceFound 17 (-40)) :: BtLeScanStop :: rest).
Proof.
  destruct (scan_stop_precedes_connect host_stop_fails 17 (-40)
              BT_GAP_ADV_TYPE_ADV_IND [name_field "DXC"] booted)
    as (st' & rest & Hrun & Hout & _).
  - split; [left; reflexivity|]. split; [reflexivity|lia].
  - exists st', rest. split; [exact Hrun|exact Hout].
Defined.

(** ** Taking a slot (C5, C9) *)

(** Counterexample to C5: an accepted advertisement may find a NULL slot and
    still fill none.  On [booted], where all slots are NULL, a near DXC
    device leaves [conns] unchanged when [bt_conn_le_create] fails, and
    when [bt_le_scan_stop] fails no connection is attempted at all; and
    with every slot taken, a failing [bt_le_scan_start] leaves the scanner
    idle after the no-slots line. *)
Lemma first_empty_slot_counterexample :
  accepted (-40) BT_GAP_ADV_TYPE_ADV_IND [name_field "DXC"] /\
  slot_empty booted 0 /\
  device_found host_create_fails 17 (-40) BT_GAP_ADV_TYPE_ADV_IND
    [name_field "DXC"] booted =
  Some (tt, State (conns booted) Scanning
              (trace booted ++ [Printk (MsgDeviceFound 17 (-40));
                                BtLeScanStop; BtConnLeCreate 17 0;
                                Printk (MsgCreateConnFailed 17 (-12));
                                BtLeScanStart; Printk MsgScanStarted])) /\
  device_found host_stop_fails 17 (-40) BT_GAP_ADV_TYPE_ADV_IND
    [name_field "DXC"] booted =
  Some (tt, State (conns booted) Scanning
              (trace booted ++ [Printk (MsgDeviceFound 17 (-40));
                                BtLeScanStop])) /\
  device_found host_start_fails 17 (-40) BT_GAP_ADV_TYPE_ADV_IND
    [name_field "DXC"] all_taken =
  Some (tt, State (conns all_taken) Idle
              [Printk (MsgDeviceFound 17 (-40)); BtLeScanStop;
               Printk MsgNoSlots; BtLeScanStart;
               Printk (MsgScanFailed (-5))]).
Proof. split; [apply accepted_near_DXC|]. by split_and!. Qed.

(** C5, amended: for an accepted advertisement whose [bt_le_scan_stop]
    returned 0, if some slot is NULL then [bt_conn_le_create] is called
    once, for the first NULL slot [k]; when it returns 0 that slot alone
    changes, from NULL to the created object, and when it fails [conns] is
    unchanged.  If no slot is NULL, [conns] is unchanged, the no-slots
    line is printed and [bt_le_scan_start] is called, which leaves the
    scanner running when it returns 0. *)
Theorem device_found_takes_first_empty h addr rssi ty ad st :
  accepted rssi ty ad -> scan_stop_ret h = 0 ->
  ((exists i, (i < MAX_CONNECTIONS)%nat /\ slot_empty st i) ->
   exists k st' rest,
     (k < MAX_CONNECTIONS)%nat /\ slot_empty st k /\
     (forall j, (j < k)%nat -> ~ slot_empty st j) /\
     device_found h addr rssi ty ad st = Some (tt, st') /\
     emitted st st' ([Printk (MsgDeviceFound addr rssi); BtLeScanStop;
                      BtConnLeCreate addr k] ++ rest) /\
     (forall a j, BtConnLeCreate a j ∉ rest) /\
     (create_ret h = 0 ->
      conns st' = <[k := Some (create_obj h)]> (conns st) /\
      slot_holds st' k (create_obj h)) /\
     (create_ret h <> 0 -> conns st' = conns st)) /\
  ((forall i, (i < MAX_CONNECTIONS)%nat -> exists c, slot_holds st i c) ->
   exists st',
     device_found h addr rssi ty ad st = Some (tt, st') /\
     conns st' = conns st /\
     emitted st st' [Printk (MsgDeviceFound addr rssi); BtLeScanStop;
                     Printk MsgNoSlots; BtLeScanStart;
                     Printk (scan_message (scan_start_ret h))] /\
     (scan_start_ret h = 0 -> scan st' = Scanning)).
Proof.
  intros Hacc Hstop. split.
  - intros Hsome.
    destruct (device_found_first_empty h addr rssi ty ad st Hacc Hstop Hsome)
      as (k & Hk & Hempty & Hfirst & ->).
    exists k. unfold connect_at.
    destruct (Z.eqb_spec (create_ret h) 0) as [Hc|Hc].
    + eexists. exists []. split_and!; try done.
      * unfold emitted. simpl. by rewrite <- app_assoc.
      * intros a j Hin. by apply elem_of_nil in Hin.
      * intros _. split; [done|]. unfold slot_holds. simpl.
        apply list_lookup_insert_eq. by apply lookup_lt_Some in Hempty.
    + eexists.
      exists [Printk (MsgCreateConnFailed addr (create_ret h));
              BtLeScanStart; Printk (scan_message (scan_start_ret h))].
      split_and!; try done.
      * unfold emitted. simpl. by rewrite <- app_assoc.
      * intros a j Hin. unfold scan_message in Hin.
        destruct (scan_start_ret h =? 0);
          repeat (apply elem_of_cons in Hin as [Hin|Hin]; [done|]);
          by apply elem_of_nil in Hin.
  - intros Hfull. rewrite device_found_full by done.
    eexists. split_and!; try done.
    intros Hok. by apply scan_after_start_ok.
Qed.

Lemma device_found_takes_first_empty_witness :
  exists k st',
    slot_empty one_pending k /\
    device_found host_start_fails 23 (-45) BT_GAP_ADV_TYPE_ADV_DIRECT_IND
      [name_field "DXC"] one_pending = Some (tt, st') /\
    conns st' = <[k := Some 2%positive]> (conns one_pending).
Proof.
  destruct (device_found_takes_first_empty host_start_fails 23 (-45)
              BT_GAP_ADV_TYPE_ADV_DIRECT_IND [name_field "DXC"] one_pending)
    as [Hfirst _].
  - split; [right; reflexivity|]. split; [reflexivity|lia].
  - reflexivity.
  - destruct Hfirst as (k & st' & rest & _ & Hk & _ & Hrun & _ & _ & Hok & _).
    + exists 1%nat. split; [unfold MAX_CONNECTIONS; lia|reflexivity].
    + exists k, st'. split; [exact Hk|]. split; [exact Hrun|].
      apply Hok. reflexivity.
Defined.

(** Counterexample to C9: after a failed [bt_conn_le_create] the scan is
    requested again, but that request can fail too, and then the scanner
    stays idle. *)
Lemma create_failure_counterexample :
  accepted (-40) BT_GAP_ADV_TYPE_ADV_IND [name_field "DXC"] /\
  slot_empty booted 0 /\
  device_found host_create_start_fail 17 (-40) BT_GAP_ADV_TYPE_ADV_IND
    [name_field "DXC"] booted =
  Some (tt, State (conns booted) Idle
              (trace booted ++ [Printk (MsgDeviceFound 17 (-40));
                                BtLeScanStop; BtConnLeCreate 17 0;
                                Printk (MsgCreateConnFailed 17 (-12));
                                BtLeScanStart;
                                Printk (MsgScanFailed (-5))])).
Proof. split; [apply accepted_near_DXC|]. by split. Qed.

(** C9, amended: for an accepted advertisement whose [bt_le_scan_stop]
    returned 0 and whose [bt_conn_le_create], called for the first NULL
    slot [k], fails, [device_found] returns normally with [conns]
    unchanged (slot [k] is still NULL), having printed the failure and
    called [bt_le_scan_start]; the scanner is running afterwards when that
    call returns 0 and idle when it fails.  Nothing but prints and host
    calls is emitted. *)
Theorem create_failure_keeps_slot_and_restarts h addr rssi ty ad st :
  accepted rssi ty ad -> scan_stop_ret h = 0 -> create_ret h <> 0 ->
  (exists i, (i < MAX_CONNECTIONS)%nat /\ slot_empty st i) ->
  exists k st',
    (k < MAX_CONNECTIONS)%nat /\ slot_empty st k /\
    (forall j, (j < k)%nat -> ~ slot_empty st j) /\
    device_found h addr rssi ty ad st = Some (tt, st') /\
    conns st' = conns st /\ slot_empty st' k /\
    emitted st st' [Printk (MsgDeviceFound addr rssi); BtLeScanStop;
                    BtConnLeCreate addr k;
                    Printk (MsgCreateConnFailed addr (create_ret h));
                    BtLeScanStart;
                    Printk (scan_message (scan_start_ret h))] /\
    (scan_start_ret h = 0 -> scan st' = Scanning) /\
    (scan_start_ret h <> 0 -> scan st' = Idle).
Proof.
  intros Hacc Hstop Hcreate Hsome.
  destruct (device_found_first_empty h addr rssi ty ad st Hacc Hstop Hsome)
    as (k & Hk & Hempty & Hfirst & ->).
  exists k. unfold connect_at. apply Z.eqb_neq in Hcreate. rewrite Hcreate.
  eexists. split_and!; try done.
  - unfold emitted. simpl. by rewrite <- app_assoc.
  - intros Hok. by apply scan_after_start_ok.
  - intros Hko. by apply scan_after_start_failed.
Qed.

Lemma create_failure_keeps_slot_and_restarts_witness :
  exists k st',
    device_found host_create_fails 23 (-45) BT_GAP_ADV_TYPE_ADV_IND
      [name_field "DXC"] one_pending = Some (tt, st') /\
    slot_empty st' k /\ scan st' = Scanning.
Proof.
  destruct (create_failure_keeps_slot_and_restarts host_create_fails 23 (-45)
              BT_GAP_ADV_TYPE_ADV_IND [name_field "DXC"] one_pending)
    as (k & st' & _ & _ & _ & Hrun & _ & Hk & _ & Hscan & _).
  - split; [left; reflexivity|]. split; [reflexivity|lia].
  - reflexivity.
  - simpl. lia.
  - exists 1%nat. split; [unfold MAX_CONNECTIONS; lia|reflexivity].
  - exists k, st'. split; [exact Hrun|]. split; [exact Hk|].
    apply Hscan. reflexivity.
Defined.

(** ** Releasing a slot (C6, C7) *)

(** Counterexample to C6: in the reachable state [one_pending] object 1 is
    in slot 0 and the scanner is idle; when its connection attempt fails
    and [bt_le_scan_start] fails as well, slot 0 is cleared but the
    scanner is still idle. *)
Lemma release_then_scanning_counterexample :
  reachable one_pending /\
  slot_holds one_pending 0 1%positive /\
  handle host_start_fails (EvConnected 1%positive 62) one_pending =
  Some (tt, State (replicate 6 None) Idle
              (trace one_pending ++
               [Printk (MsgFailedToConnect 1%positive 62);
                BtConnUnref 1%positive; BtLeScanStart;
                Printk (MsgScanFailed (-5))])).
Proof. split; [apply reachable_one_pending|]. by split. Qed.

(** C6, amended: for a disconnect, or a connect result with an error,
    whose object is held in slot [i] of a pool with no object in two slots,
    the callback returns with slot [i] NULL and every other slot as before,
    after one [bt_conn_unref] and a call of [bt_le_scan_start]; the
    scanner is running afterwards when that call returns 0, and is left as
    it was when the call fails. *)
Theorem release_clears_slot_and_restarts h conn ev st i :
  pool_inv st -> slot_holds st i conn -> is_release conn ev ->
  exists st',
    handle h ev st = Some (tt, st') /\
    slot_empty st' i /\
    conns st' = <[i := None]> (conns st) /\
    emitted st st' [Printk (release_banner ev); BtConnUnref conn;
                    BtLeScanStart;
                    Printk (scan_message (scan_start_ret h))] /\
    (scan_start_ret h = 0 -> scan st' = Scanning) /\
    (scan_start_ret h <> 0 -> scan st' = scan st).
Proof.
  intros [Hlen Huniq] Hhold Hev.
  assert (i < MAX_CONNECTIONS)%nat as Hi.
  { rewrite <- Hlen. by apply lookup_lt_Some in Hhold. }
  rewrite (handle_release_hit h conn ev st i); [|done..|].
  - eexists. split_and!; try done.
    + unfold slot_empty. simpl. apply list_lookup_insert_eq. lia.
    + intros Hok. by apply scan_after_start_ok.
    + intros Hko. by apply scan_after_start_failed.
  - intros j Hj Hhold'. specialize (Huniq _ _ _ Hhold Hhold'). lia.
Qed.

Lemma release_clears_slot_and_restarts_witness :
  exists st',
    handle host_ok (EvDisconnected 1%positive 19) one_pending =
    Some (tt, st') /\
    slot_empty st' 0 /\ scan st' = Scanning.
Proof.
  destruct (release_clears_slot_and_restarts host_ok 1%positive
              (EvDisconnected 1%positive 19) one_pending 0)
    as (st' & Hrun & Hempty & _ & _ & Hscan & _).
  - apply reachable_pool_inv, reachable_one_pending.
  - reflexivity.
  - reflexivity.
  - exists st'. split; [exact Hrun|]. split; [exact Hempty|].
    apply Hscan. reflexivity.
Defined.

(** C7: a disconnect, or a connect result with an error, for an object
    that no slot holds returns normally and leaves every slot of [conns]
    as it was: the callback prints its line and calls [start_scan], with no
    [bt_conn_unref]. *)
Theorem release_unknown_handle_keeps_pool h conn ev st :
  (forall i, ~ slot_holds st i conn) -> is_release conn ev ->
  exists st',
    handle h ev st = Some (tt, st') /\
    conns st' = conns st /\
    emitted st st' [Printk (release_banner ev); BtLeScanStart;
                    Printk (scan_message (scan_start_ret h))].
Proof.
  intros Hnone Hev.
  rewrite (handle_release_miss h conn ev st) by (done || intros; apply Hnone).
  eexists. by split_and!.
Qed.

Lemma no_slot_holds_9 (i : nat) : ~ slot_holds one_pending i 9%positive.
Proof.
  unfold slot_holds, one_pending, conns.
  do 6 (destruct i as [|i]; [discriminate|]). discriminate.
Qed.

Lemma release_unknown_handle_keeps_pool_witness :
  exists st',
    handle host_ok (EvConnected 9%positive 62) one_pending = Some (tt, st') /\
    conns st' = conns one_pending.
Proof.
  destruct (release_unknown_handle_keeps_pool host_ok 9%positive
              (EvConnected 9%positive 62) one_pending)
    as (st' & Hrun & Hconns & _).
  - exact no_slot_holds_9.
  - split; [reflexivity|discriminate].
  - exists st'. split; [exact Hrun|exact Hconns].
Defined.

(** ** The pool invariant (C8) *)

(** C8: in every state reached from [main] by discovery, connect-result
    and disconnect callbacks, [conns] has its six slots, at most six of
    them are not NULL, and no connection object is in two slots. *)
Theorem reachable_capacity_and_unique_handles st :
  reachable st ->
  length (conns st) = MAX_CONNECTIONS /\
  (occupied (conns st) <= MAX_CONNECTIONS)%nat /\
  handles_unique (conns st).
Proof.
  intros Hreach. destruct (reachable_pool_inv st Hreach) as [Hlen Huniq].
  split; [done|]. split; [|done].
  rewrite <- Hlen. apply occupied_le_length.
Qed.

Lemma reachable_capacity_and_unique_handles_witness :
  (occupied (conns one_pending) <= MAX_CONNECTIONS)%nat /\
  handles_unique (conns one_pending).
Proof.
  destruct (reachable_capacity_and_unique_handles one_pending)
    as (_ & Hocc & Huniq).
  - apply reachable_one_pending.
  - split; [exact Hocc|exact Huniq].
Defined.

(** ** Connect success (C10) *)

(** C10: a connect result with error code 0 only prints the connected
    line: every slot of [conns] and the scanner are as before, whatever
    the state and whether or not a slot holds the object, and the callback
    returns normally. *)
Theorem connected_success_unchanged h conn st :
  exists st',
    handle h (EvConnected conn 0) st = Some (tt, st') /\
    conns st' = conns st /\ scan st' = scan st /\
    emitted st st' [Printk (MsgConnected conn)].
Proof.
  simpl. rewrite connected_ok_run. eexists. by split_and!.
Qed.

(** ** Every callback returns *)

Lemma handle_returns (h : host) (ev : event) (st : state) :
  exists st', handle h ev st = Some (tt, st').
Proof. destruct (handle_conns h ev st) as (st' & Hrun & _). eauto. Qed.

(** ** The name callback for any target *)

(** X1: for a target without embedded NUL, the callback stops the parse
    exactly on a complete-name field whose bytes are a prefix of the
    NUL-terminated target or begin with it; fields of any other type never
    stop it. *)
Theorem device_name_found_stops_iff (name : list byte) (d : bt_data) :
  x00 ∉ name ->
  device_name_found d (name ++ [x00]) = Some false <->
  type d = BT_DATA_NAME_COMPLETE /\
  (data d `prefix_of` (name ++ [x00]) \/ (name ++ [x00]) `prefix_of` data d).
Proof.
  intros Hnul. unfold device_name_found, data_len.
  rewrite <- (strncmp_zero_iff name (data d) Hnul).
  destruct (Z.eqb_spec (type d) BT_DATA_NAME_COMPLETE) as [Ht|Ht].
  - destruct (strncmp _ _ _) as [r|].
    + destruct (Z.eqb_spec r 0) as [->|Hr]; split; try done.
      intros [_ [= ?]]. done.
    + split; [done|]. intros [_ [=]].
  - split; [done|]. intros [? _]. done.
Qed.

Lemma device_name_found_stops_iff_witness :
  device_name_found (name_field "DX") (c_string "DXC") = Some false <->
  type (name_field "DX") = BT_DATA_NAME_COMPLETE /\
  (data (name_field "DX") `prefix_of` c_string "DXC" \/
   c_string "DXC" `prefix_of` data (name_field "DX")).
Proof.
  apply (device_name_found_stops_iff (list_byte_of_string "DXC")
           (name_field "DX")).
  exact desired_name_no_nul.
Defined.

Lemma prefix_of_terminated (name s2 : list byte) :
  x00 ∉ s2 ->
  s2 `prefix_of` (name ++ [x00]) \/ (name ++ [x00]) `prefix_of` s2 <->
  s2 `prefix_of` name.
Proof.
  intros Hs2. split.
  - intros [[k Hk]|[k Hk]].
    + destruct (decide (k = [])) as [->|Hne].
      * exfalso. apply Hs2. rewrite app_nil_r in Hk. subst s2.
        apply elem_of_app. right. by apply list_elem_of_singleton.
      * destruct (exists_last Hne) as (k' & z & ->).
        rewrite app_assoc in Hk. apply app_inj_tail in Hk as [-> _].
        by exists k'.
    + exfalso. apply Hs2. subst s2. rewrite elem_of_app. left.
      apply elem_of_app. right. by apply list_elem_of_singleton.
  - intros [k ->]. left. exists (k ++ [x00]). by rewrite app_assoc.
Qed.

(** X2: when neither the target nor the advertised name contains a NUL,
    a complete-name field is taken for the target exactly when its bytes
    are a prefix of the target: every shorter spelling, the empty name
    included, passes, and nothing longer does. *)
Theorem nul_free_name_stops_iff_prefix (name : list byte) (d : bt_data) :
  x00 ∉ name -> x00 ∉ data d -> type d = BT_DATA_NAME_COMPLETE ->
  device_name_found d (name ++ [x00]) = Some false <->
  data d `prefix_of` name.
Proof.
  intros Hname Hdata Hty.
  rewrite <- (prefix_of_terminated name (data d) Hdata).
  unfold device_name_found, data_len.
  rewrite <- (strncmp_zero_iff name (data d) Hname).
  apply Z.eqb_eq in Hty. rewrite Hty.
  destruct (strncmp _ _ _) as [r|]; [|done].
  destruct (Z.eqb_spec r 0) as [->|Hr]; split; try done.
  intros [= ?]. done.
Qed.

Lemma name_DXCX_no_nul : x00 ∉ data (name_field "DXCX").
Proof.
  change (data (name_field "DXCX")) with [x44; x58; x43; x58].
  rewrite !not_elem_of_cons. repeat split; try done. apply not_elem_of_nil.
Qed.

Lemma nul_free_name_stops_iff_prefix_witness :
  device_name_found (name_field "DXCX") (c_string "DXC") = Some false <->
  data (name_field "DXCX") `prefix_of` list_byte_of_string "DXC".
Proof.
  apply (nul_free_name_stops_iff_prefix (list_byte_of_string "DXC")
           (name_field "DXCX")).
  - exact desired_name_no_nul.
  - exact name_DXCX_no_nul.
  - reflexivity.
Defined.

(** X3: whatever the field and whatever the NUL-terminated target, the
    callback's [strncmp] reads inside both buffers: the callback never
    faults. *)
Theorem device_name_found_in_bounds (name : list byte) (d : bt_data) :
  is_Some (device_name_found d (name ++ [x00])).
Proof.
  unfold device_name_found, data_len.
  destruct (type d =? BT_DATA_NAME_COMPLETE); [|eauto].
  destruct (strncmp_defined name (data d)) as [r ->].
  destruct (r =? 0); eauto.
Qed.

(** X4: the filter of [device_found] finds the name exactly when some
    field of the advertisement, at any position, is a complete-name field
    whose bytes are a prefix of ["DXC\0"] or begin with it. *)
Theorem name_matches_iff_some_field (ad : list bt_data) :
  name_matches ad <->
  exists d, d ∈ ad /\ type d = BT_DATA_NAME_COMPLETE /\
    (data d `prefix_of` desired_name \/ desired_name `prefix_of` data d).
Proof.
  unfold name_matches. induction ad as [|d ad IH]; simpl.
  - split; [done|]. intros (d & Hin & _). by apply elem_of_nil in Hin.
  - destruct (device_name_found d desired_name) as [[]|] eqn:E.
    + rewrite IH. split.
      * intros (d' & Hin & Hd'). exists d'. split; [by right|done].
      * intros (d' & Hin & Hd'). apply elem_of_cons in Hin as [->|Hin].
        -- apply device_name_found_stops in Hd'. congruence.
        -- by exists d'.
    + split; [|done]. intros _. exists d. split; [by left|].
      by apply device_name_found_stops.
    + destruct (device_name_found_defined d) as [b Hb]. congruence.
Qed.

(** ** Every outcome of a callback *)


Lemma emitted_unique (st st' : state) (cs1 cs2 : list call) :
  emitted st st' cs1 -> emitted st st' cs2 -> cs1 = cs2.
Proof.
  unfold emitted. intros H1 H2. rewrite H1 in H2. by apply app_inv_head in H2.
Qed.

(** The outcomes of [device_found]: what it emitted, and what became of
    [conns] and of the scanner. *)
Lemma device_found_outcome h addr rssi ty ad st :
  exists st' cs,
    device_found h addr rssi ty ad st = Some (tt, st') /\
    emitted st st' cs /\
    ((cs = [] /\ st' = st /\ (~ name_matches ad \/ ~ connectable ty)) \/
     (connectable ty /\ name_matches ad /\
      ((rssi < -50 /\ cs = [found_line addr rssi] /\
        conns st' = conns st /\ scan st' = scan st) \/
       (-50 <= rssi /\ scan_stop_ret h <> 0 /\
        cs = [found_line addr rssi; BtLeScanStop] /\
        conns st' = conns st /\ scan st' = scan st) \/
       (-50 <= rssi /\ scan_stop_ret h = 0 /\
        exists k, (k < MAX_CONNECTIONS)%nat /\
          default None (conns st !! k) = None /\
          ((create_ret h = 0 /\
            cs = [found_line addr rssi; BtLeScanStop; BtConnLeCreate addr k] /\
            conns st' = <[k := Some (create_obj h)]> (conns st) /\
            scan st' = Idle) \/
           (create_ret h <> 0 /\
            cs = [found_line addr rssi; BtLeScanStop; BtConnLeCreate addr k;
                  create_failed_line h addr; BtLeScanStart; scan_line h] /\
            conns st' = conns st /\
            scan st' = scan_after_start h Idle))) \/
       (-50 <= rssi /\ scan_stop_ret h = 0 /\
        (forall i, (i < MAX_CONNECTIONS)%nat -> exists c, slot_holds st i c) /\
        cs = [found_line addr rssi; BtLeScanStop; Printk MsgNoSlots;
              BtLeScanStart; scan_line h] /\
        conns st' = conns st /\ scan st' = scan_after_start h Idle)))).
Proof.
  destruct (decide (connectable ty)) as [Hty|Hty].
  2:{ exists st, []. rewrite device_found_not_connectable by done.
      split; [done|]. split; [unfold emitted; by rewrite app_nil_r|].
      left. eauto. }
  destruct (decide (name_matches ad)) as [Hname|Hname].
  2:{ exists st, []. rewrite device_found_no_name by done.
      split; [done|]. split; [unfold emitted; by rewrite app_nil_r|].
      left. eauto. }
  destruct (Z.lt_ge_cases rssi (-50)) as [Hrssi|Hrssi].
  { rewrite device_found_far by done. eexists; eexists.
    split; [done|]. split; [done|]. right. split; [done|]. split; [done|].
    left. done. }
  assert (accepted rssi ty ad) as Hacc by done.
  destruct (decide (scan_stop_ret h = 0)) as [Hstop|Hstop].
  2:{ rewrite device_found_stop_failed by done. eexists; eexists.
      split; [done|]. split; [done|]. right. split; [done|]. split; [done|].
      right; left. done. }
  rewrite device_found_stop_ok by done.
  destruct (connect_loop_cases h addr MAX_CONNECTIONS 0
              (scan_stopped addr rssi st))
    as [(k & Hk & Hnull & _ & ->)|[Hall ->]].
  - unfold connect_at. simpl in Hnull.
    destruct (Z.eqb_spec (create_ret h) 0) as [Hc|Hc]; eexists; eexists;
      (split; [done|]);
      (split; [unfold emitted; simpl; by rewrite <- app_assoc|]);
      right; (split; [done|]); (split; [done|]);
      right; right; left; (split; [done|]); (split; [done|]);
      exists k; (split; [lia|]); (split; [done|]).
    + left. done.
    + right. done.
  - eexists; eexists. split; [done|].
    split; [unfold emitted; simpl; by rewrite <- app_assoc|].
    right. split; [done|]. split; [done|]. right; right; right.
    split; [done|]. split; [done|]. split; [|done].
    intros i Hi. apply (Hall i). lia.
Qed.

(** The outcomes of a release event. *)
Lemma release_outcome (h : host) (conn : bt_conn) (ev : event) (st : state) :
  is_release conn ev ->
  exists st' cs,
    handle h ev st = Some (tt, st') /\
    emitted st st' cs /\
    scan st' = scan_after_start h (scan st) /\
    (((forall j, (j < MAX_CONNECTIONS)%nat -> ~ slot_holds st j conn) /\
      cs = [Printk (release_banner ev); BtLeScanStart; scan_line h] /\
      conns st' = conns st) \/
     (exists k, (k < MAX_CONNECTIONS)%nat /\ slot_holds st k conn /\
        (forall j, (j < k)%nat -> ~ slot_holds st j conn) /\
        cs = [Printk (release_banner ev); BtConnUnref conn; BtLeScanStart;
              scan_line h] /\
        conns st' = <[k := None]> (conns st))).
Proof.
  intros Hev.
  destruct (first_slot (fun j => slot_holds st j conn) MAX_CONNECTIONS)
    as [(k & Hk & Hhold & Hfirst)|Hnone].
  - rewrite (handle_release_hit h conn ev st k) by done.
    eexists; eexists. split; [done|]. split; [done|]. split; [done|].
    right. exists k. done.
  - rewrite (handle_release_miss h conn ev st) by done.
    eexists; eexists. split; [done|]. split; [done|]. split; [done|].
    by left.
Qed.

(** An event is a release of its own object unless it is a discovery or a
    connect result without error. *)
Lemma event_cases (ev : event) :
  (exists addr rssi ty ad, ev = EvDeviceFound addr rssi ty ad) \/
  (exists conn, ev = EvConnected conn 0) \/
  (exists conn, is_release conn ev).
Proof.
  destruct ev as [addr rssi ty ad|conn err|conn reason].
  - left. eauto.
  - destruct (Z.eq_dec err 0) as [->|Herr]; right; [left; eauto|].
    right. exists conn. done.
  - right; right. exists conn. done.
Qed.

(** ** Slots in use *)

Lemma occupied_fill (l : list (option bt_conn)) (k : nat) (c : bt_conn) :
  l !! k = Some None -> occupied (<[k := Some c]> l) = S (occupied l).
Proof.
  unfold occupied. revert k.
  induction l as [|x l IH]; intros [|k] Hk; simplify_eq/=; [done|].
  destruct x; cbn; by rewrite (IH k).
Qed.

Lemma occupied_clear (l : list (option bt_conn)) (k : nat) (c : bt_conn) :
  l !! k = Some (Some c) -> S (occupied (<[k := None]> l)) = occupied l.
Proof.
  unfold occupied. revert k.
  induction l as [|x l IH]; intros [|k] Hk; simplify_eq/=; [done|].
  destruct x; cbn; by rewrite <- (IH k).
Qed.

Lemma occupied_fill_null (l : list (option bt_conn)) (k : nat) (c : bt_conn) :
  default None (l !! k) = None ->
  (occupied l <= occupied (<[k := Some c]> l) <= S (occupied l))%nat.
Proof.
  intros Hk. destruct (l !! k) as [[x|]|] eqn:E; simplify_eq/=.
  - rewrite occupied_fill by done. lia.
  - rewrite list_insert_ge by (by apply lookup_ge_None). lia.
Qed.

(** ** What a callback calls *)

Ltac count_calls :=
  subst; unfold count, found_line, create_failed_line, scan_line; simpl;
  repeat split; lia.

(** X5: whatever the event, the state and the host's answers, a callback
    returns having called each of [bt_le_scan_stop], [bt_le_scan_start],
    [bt_conn_le_create] and [bt_conn_unref] at most once: no call is
    retried and no loop releases or connects twice. *)
Theorem callback_calls_at_most_once (h : host) (ev : event) (st : state) :
  exists st' cs,
    handle h ev st = Some (tt, st') /\ emitted st st' cs /\
    (count is_scan_stop cs <= 1)%nat /\ (count is_scan_start cs <= 1)%nat /\
    (count is_create cs <= 1)%nat /\ (count is_unref cs <= 1)%nat.
Proof.
  destruct (event_cases ev)
    as [(addr & rssi & ty & ad & ->)|[[conn ->]|[conn Hrel]]].
  - destruct (device_found_outcome h addr rssi ty ad st)
      as (st' & cs & Hrun & Hout & Hcases).
    exists st', cs. split; [done|]. split; [done|].
    destruct Hcases
      as [(-> & _)|(_ & _ & [(_ & -> & _)|[(_ & _ & -> & _)|
           [(_ & _ & k & _ & _ & [(_ & -> & _)|(_ & -> & _)])|
            (_ & _ & _ & -> & _)]]])]; count_calls.
  - exists (State (conns st) (scan st)
              (trace st ++ [Printk (MsgConnected conn)])),
      [Printk (MsgConnected conn)].
    split; [done|]. split; [done|]. count_calls.
  - destruct (release_outcome h conn ev st Hrel)
      as (st' & cs & Hrun & Hout & _ & [(_ & -> & _)|(k & _ & _ & _ & -> & _)]);
      exists st'; eexists; (split; [done|]); (split; [done|]); count_calls.
Qed.

(** X6: the callbacks keep to their own calls.  [device_found] never calls
    [bt_conn_unref]; [disconnected] and a failed [connected] never call
    [bt_conn_le_create] or [bt_le_scan_stop] and always call
    [bt_le_scan_start] once; a successful [connected] makes no host call
    at all. *)
Theorem callback_calls_kept_apart (h : host) (ev : event) (st : state) :
  exists st' cs,
    handle h ev st = Some (tt, st') /\ emitted st st' cs /\
    match ev with
    | EvDeviceFound _ _ _ _ => count is_unref cs = 0%nat
    | EvConnected _ 0 =>
        count is_scan_stop cs = 0%nat /\ count is_scan_start cs = 0%nat /\
        count is_create cs = 0%nat /\ count is_unref cs = 0%nat
    | _ =>
        count is_create cs = 0%nat /\ count is_scan_stop cs = 0%nat /\
        count is_scan_start cs = 1%nat
    end.
Proof.
  assert (forall conn ev', is_release conn ev' ->
    exists st' cs, handle h ev' st = Some (tt, st') /\ emitted st st' cs /\
      count is_create cs = 0%nat /\ count is_scan_stop cs = 0%nat /\
      count is_scan_start cs = 1%nat) as Hrelease.
  { intros conn ev' Hrel.
    destruct (release_outcome h conn ev' st Hrel)
      as (st' & cs & Hrun & Hout & _ & [(_ & -> & _)|(k & _ & _ & _ & -> & _)]);
      exists st'; eexists; (split; [done|]); (split; [done|]); count_calls. }
  destruct ev as [addr rssi ty ad|conn err|conn reason].
  - destruct (device_found_outcome h addr rssi ty ad st)
      as (st' & cs & Hrun & Hout & Hcases).
    exists st', cs. split; [done|]. split; [done|].
    destruct Hcases
      as [(-> & _)|(_ & _ & [(_ & -> & _)|[(_ & _ & -> & _)|
           [(_ & _ & k & _ & _ & [(_ & -> & _)|(_ & -> & _)])|
            (_ & _ & _ & -> & _)]]])]; count_calls.
  - destruct (Z.eq_dec err 0) as [->|Herr].
    + exists (State (conns st) (scan st)
                (trace st ++ [Printk (MsgConnected conn)])),
        [Printk (MsgConnected conn)].
      split; [done|]. split; [done|]. count_calls.
    + destruct (Hrelease conn (EvConnected conn err)) as (st' & cs & Hres);
        [done|].
      exists st', cs. destruct err; done.
  - by apply (Hrelease conn).
Qed.

(** ** Slots taken and released *)

(** X7: a discovery never frees a slot and takes at most one; a connect
    result or a disconnect never takes a slot and frees at most one. *)
Theorem callback_occupied_change (h : host) (ev : event) (st : state) :
  exists st',
    handle h ev st = Some (tt, st') /\
    match ev with
    | EvDeviceFound _ _ _ _ =>
        (occupied (conns st) <= occupied (conns st')
         <= S (occupied (conns st)))%nat
    | _ =>
        (occupied (conns st') <= occupied (conns st)
         <= S (occupied (conns st')))%nat
    end.
Proof.
  assert (forall conn ev', is_release conn ev' ->
    exists st', handle h ev' st = Some (tt, st') /\
      (occupied (conns st') <= occupied (conns st)
       <= S (occupied (conns st')))%nat) as Hrelease.
  { intros conn ev' Hrel.
    destruct (release_outcome h conn ev' st Hrel)
      as (st' & cs & Hrun & _ & _ &
          [(_ & _ & Hc)|(k & _ & Hhold & _ & _ & Hc)]);
      exists st'; (split; [done|]); rewrite Hc; [lia|].
    rewrite <- (occupied_clear (conns st) k conn Hhold). lia. }
  destruct ev as [addr rssi ty ad|conn err|conn reason].
  - destruct (device_found_outcome h addr rssi ty ad st)
      as (st' & cs & Hrun & _ & Hcases).
    exists st'. split; [done|].
    destruct Hcases
      as [(_ & -> & _)|(_ & _ & [(_ & _ & -> & _)|[(_ & _ & _ & -> & _)|
           [(_ & _ & k & _ & Hnull & [(_ & _ & -> & _)|(_ & _ & -> & _)])|
            (_ & _ & _ & _ & -> & _)]]])]; try lia.
    by apply occupied_fill_null.
  - destruct (Z.eq_dec err 0) as [->|Herr].
    + eexists. split; [done|]. simpl. lia.
    + destruct (Hrelease conn (EvConnected conn err)) as (st' & Hres);
        [done|].
      exists st'. destruct err; done.
  - by apply (Hrelease conn).
Qed.


Lemma main_run (h : host) (st : state) :
  main h st =
  Some (tt, if enable_ret h =? 0
            then State (conns st) (scan_after_start h (scan st))
                       (trace st ++ [BtEnable; Printk MsgInitialized;
                                     BtLeScanStart; scan_line h])
            else State (conns st) (scan st)
                       (trace st ++ [BtEnable;
                                     Printk (MsgInitFailed (enable_ret h))])).
Proof.
  unfold main, bt_enable, bind, emit, ret, printk, emit. simpl.
  destruct (enable_ret h =? 0); simpl.
  - rewrite start_scan_run. simpl. by rewrite <- !app_assoc.
  - by rewrite <- app_assoc.
Qed.



(** ** Sequences of callbacks *)

(** X9: connecting and releasing is a round trip on [conns].  When an
    accepted advertisement has filled a slot with a fresh connection
    object, a later disconnect or failed connect result for that object
    clears the same slot: [conns] is again what it was before the
    discovery. *)
Theorem connect_then_release_restores_pool
    (h h2 : host) addr rssi ty ad (ev : event) (st : state) :
  accepted rssi ty ad -> scan_stop_ret h = 0 -> create_ret h = 0 ->
  host_fresh h st ->
  (exists i, (i < MAX_CONNECTIONS)%nat /\ slot_empty st i) ->
  is_release (create_obj h) ev ->
  exists k st1 st2,
    device_found h addr rssi ty ad st = Some (tt, st1) /\
    slot_holds st1 k (create_obj h) /\
    handle h2 ev st1 = Some (tt, st2) /\
    conns st2 = conns st.
Proof.
  intros Hacc Hstop Hcreate Hfresh Hsome Hrel.
  destruct (device_found_first_empty h addr rssi ty ad st Hacc Hstop Hsome)
    as (k & Hk & Hempty & _ & ->).
  unfold connect_at. rewrite Hcreate. simpl.
  assert (k < length (conns st))%nat as Hlt by (by apply lookup_lt_Some in Hempty).
  exists k. eexists. eexists. split; [done|].
  split; [unfold slot_holds; simpl; by apply list_lookup_insert_eq|].
  rewrite (handle_release_hit h2 (create_obj h) ev _ k);
    [split; [done|]|done|done|..].
  - simpl. rewrite list_insert_insert_eq. by apply list_insert_id.
  - unfold slot_holds. simpl. by apply list_lookup_insert_eq.
  - intros j Hj. unfold slot_holds. simpl.
    rewrite list_lookup_insert_ne by lia. by apply Hfresh.
Qed.

Lemma connect_then_release_restores_pool_witness :
  exists k st1 st2,
    device_found host_ok 17 (-40) BT_GAP_ADV_TYPE_ADV_IND
      [name_field "DXC"] booted = Some (tt, st1) /\
    slot_holds st1 k 1%positive /\
    handle host_start_fails (EvDisconnected 1%positive 19) st1 =
    Some (tt, st2) /\
    conns st2 = conns booted.
Proof.
  apply (connect_then_release_restores_pool host_ok host_start_fails 17 (-40)
           BT_GAP_ADV_TYPE_ADV_IND [name_field "DXC"]
           (EvDisconnected 1%positive 19) booted).
  - apply accepted_near_DXC.
  - reflexivity.
  - reflexivity.
  - apply host_ok_fresh_booted.
  - exists 0%nat. split; [unfold MAX_CONNECTIONS; lia|reflexivity].
  - reflexivity.
Defined.

(** X10: a release event repeated for the same object is harmless.  After
    a disconnect or failed connect result has cleared the slot of an
    object, a second such event for it leaves [conns] unchanged and makes
    no further [bt_conn_unref]; it only prints and calls [start_scan]. *)
Theorem release_twice_second_is_noop
    (h1 h2 : host) (conn : bt_conn) (ev1 ev2 : event) (st : state) (i : nat) :
  pool_inv st -> slot_holds st i conn ->
  is_release conn ev1 -> is_release conn ev2 ->
  exists st1 st2,
    handle h1 ev1 st = Some (tt, st1) /\
    handle h2 ev2 st1 = Some (tt, st2) /\
    conns st2 = conns st1 /\
    emitted st1 st2 [Printk (release_banner ev2); BtLeScanStart;
                     scan_line h2].
Proof.
  intros [Hlen Huniq] Hhold Hev1 Hev2.
  assert (i < MAX_CONNECTIONS)%nat as Hi.
  { rewrite <- Hlen. by apply lookup_lt_Some in Hhold. }
  rewrite (handle_release_hit h1 conn ev1 st i); [|done..|].
  2:{ intros j Hj Hhold'. specialize (Huniq _ _ _ Hhold Hhold'). lia. }
  eexists; eexists. split; [done|].
  rewrite (handle_release_miss h2 conn ev2); [done|done|].
  intros j _. unfold slot_holds. simpl. intros Hj.
  apply list_lookup_insert_Some in Hj as [(_ & ? & _)|[Hne Hj]]; [done|].
  by apply Hne, (Huniq i j conn).
Qed.

Lemma release_twice_second_is_noop_witness :
  exists st1 st2,
    handle host_ok (EvConnected 1%positive 62) one_pending = Some (tt, st1) /\
    handle host_ok (EvDisconnected 1%positive 19) st1 = Some (tt, st2) /\
    conns st2 = conns st1.
Proof.
  destruct (release_twice_second_is_noop host_ok host_ok 1%positive
              (EvConnected 1%positive 62) (EvDisconnected 1%positive 19)
              one_pending 0)
    as (st1 & st2 & Hrun1 & Hrun2 & Hconns & _).
  - apply reachable_pool_inv, reachable_one_pending.
  - reflexivity.
  - split; [reflexivity|discriminate].
  - reflexivity.
  - exists st1, st2. split; [exact Hrun1|]. split; [exact Hrun2|exact Hconns].
Defined.

(** X11: a connection that succeeds does not bring the scan back.  After
    an accepted advertisement has stopped the scan and created its
    connection, the connect result without error leaves the scanner idle:
    over both callbacks [bt_le_scan_start] is never called, so no further
    device is found until a release event restarts the scan. *)
Theorem connect_success_leaves_scanner_idle
    (h h2 : host) addr rssi ty ad (st : state) :
  accepted rssi ty ad -> scan_stop_ret h = 0 -> create_ret h = 0 ->
  (exists i, (i < MAX_CONNECTIONS)%nat /\ slot_empty st i) ->
  exists st1 st2 cs,
    device_found h addr rssi ty ad st = Some (tt, st1) /\
    connected h2 (create_obj h) 0 st1 = Some (tt, st2) /\
    scan st2 = Idle /\
    emitted st st2 cs /\ count is_scan_start cs = 0%nat.
Proof.
  intros Hacc Hstop Hcreate Hsome.
  destruct (device_found_first_empty h addr rssi ty ad st Hacc Hstop Hsome)
    as (k & _ & _ & _ & ->).
  unfold connect_at. rewrite Hcreate. simpl.
  eexists; eexists.
  exists [found_line addr rssi; BtLeScanStop; BtConnLeCreate addr k;
          Printk (MsgConnected (create_obj h))].
  split; [done|]. rewrite connected_ok_run. simpl.
  split; [done|]. split; [done|].
  split; [|done]. unfold emitted. simpl. by rewrite <- !app_assoc.
Qed.

Lemma connect_success_leaves_scanner_idle_witness :
  exists st1 st2,
    device_found host_ok 17 (-40) BT_GAP_ADV_TYPE_ADV_IND
      [name_field "DXC"] booted = Some (tt, st1) /\
    connected host_ok 1%positive 0 st1 = Some (tt, st2) /\
    scan st2 = Idle.
Proof.
  destruct (connect_success_leaves_scanner_idle host_ok host_ok 17 (-40)
              BT_GAP_ADV_TYPE_ADV_IND [name_field "DXC"] booted)
    as (st1 & st2 & cs & Hrun1 & Hrun2 & Hscan & _).
  - apply accepted_near_DXC.
  - reflexivity.
  - reflexivity.
  - exists 0%nat. split; [unfold MAX_CONNECTIONS; lia|reflexivity].
  - exists st1, st2. split; [exact Hrun1|]. split; [exact Hrun2|exact Hscan].
Defined.

(** ** The gates of [device_found] *)

(** X12: the proximity gate is at -50 inclusive.  For a connectable
    advertisement carrying the name, [bt_le_scan_stop] is called exactly
    when rssi is -50 or more. *)
Theorem scan_stop_iff_near h addr rssi ty ad st :
  connectable ty -> name_matches ad ->
  exists st' cs,
    device_found h addr rssi ty ad st = Some (tt, st') /\
    emitted st st' cs /\
    (count is_scan_stop cs = 1%nat <-> -50 <= rssi) /\
    (count is_scan_stop cs = 0%nat <-> rssi < -50).
Proof.
  intros Hty Hname.
  destruct (device_found_outcome h addr rssi ty ad st)
    as (st' & cs & Hrun & Hout & Hcases).
  exists st', cs. split; [done|]. split; [done|].
  destruct Hcases
    as [(_ & _ & [?|?])|(_ & _ & [(? & -> & _)|[(? & _ & -> & _)|
         [(? & _ & k & _ & _ & [(_ & -> & _)|(_ & -> & _)])|
          (? & _ & _ & -> & _)]]])]; try done;
    unfold count, found_line, create_failed_line, scan_line; simpl;
    split; split; intros; try done; lia.
Qed.

Lemma scan_stop_iff_near_witness :
  exists st' cs,
    device_found host_ok 17 (-50) BT_GAP_ADV_TYPE_ADV_IND
      [name_field "DXC"] booted = Some (tt, st') /\
    emitted booted st' cs /\ count is_scan_stop cs = 1%nat.
Proof.
  destruct (scan_stop_iff_near host_ok 17 (-50) BT_GAP_ADV_TYPE_ADV_IND
              [name_field "DXC"] booted)
    as (st' & cs & Hrun & Hout & [_ Hnear] & _).
  - left. reflexivity.
  - reflexivity.
  - exists st', cs. split; [exact Hrun|]. split; [exact Hout|].
    apply Hnear. lia.
Defined.

(** X13: [device_found] is silent exactly on the advertisements its first
    two tests reject.  It returns the state untouched, with no call and no
    print, if and only if the type is not connectable or the filter does
    not find the name; every other advertisement at least prints the found
    line. *)
Theorem device_found_silent_iff_rejected h addr rssi ty ad st :
  device_found h addr rssi ty ad st = Some (tt, st) <->
  ~ name_matches ad \/ ~ connectable ty.
Proof.
  split.
  - intros Hrun.
    destruct (device_found_outcome h addr rssi ty ad st)
      as (st' & cs & Hrun' & Hout & Hcases).
    rewrite Hrun in Hrun'. injection Hrun' as <-.
    assert (cs = []) as ->.
    { symmetry. apply (emitted_unique st st); [|done].
      unfold emitted. by rewrite app_nil_r. }
    destruct Hcases
      as [(_ & _ & Hrej)|(_ & _ & [(_ & ? & _)|[(_ & _ & ? & _)|
           [(_ & _ & k & _ & _ & [(_ & ? & _)|(_ & ? & _)])|
            (_ & _ & _ & ? & _)]]])]; done.
  - intros [Hname|Hty].
    + by apply device_found_no_name.
    + by apply device_found_not_connectable.
Qed.

(** ** Start-up *)

(** X14: [main] calls [bt_enable] first and never touches [conns].  It
    goes on to [bt_le_scan_start] exactly when [bt_enable] returned 0;
    after a failed initialisation it only prints and the scanner is left
    as it was. *)
Theorem main_scans_iff_enabled (h : host) (st : state) :
  exists st' rest,
    main h st = Some (tt, st') /\
    emitted st st' (BtEnable :: rest) /\
    conns st' = conns st /\
    (count is_scan_start rest = 1%nat <-> enable_ret h = 0) /\
    (enable_ret h <> 0 ->
     rest = [Printk (MsgInitFailed (enable_ret h))] /\ scan st' = scan st).
Proof.
  rewrite main_run.
  destruct (Z.eqb_spec (enable_ret h) 0) as [He|He]; eexists; eexists;
    (split; [done|]); (split; [done|]); (split; [done|]);
    unfold count, scan_line; simpl; split; done.
Qed.

(** ** A full pool *)

(** X15: with all six slots in use no advertisement connects.  Whatever
    the advertisement and the host's answers, [device_found] leaves
    [conns] unchanged and never calls [bt_conn_le_create]. *)
Theorem full_pool_never_connects h addr rssi ty ad st :
  (forall i, (i < MAX_CONNECTIONS)%nat -> exists c, slot_holds st i c) ->
  exists st' cs,
    device_found h addr rssi ty ad st = Some (tt, st') /\
    emitted st st' cs /\
    conns st' = conns st /\ count is_create cs = 0%nat.
Proof.
  intros Hfull.
  destruct (device_found_outcome h addr rssi ty ad st)
    as (st' & cs & Hrun & Hout & Hcases).
  exists st', cs. split; [done|]. split; [done|].
  destruct Hcases
    as [(-> & -> & _)|(_ & _ & [(_ & -> & Hc & _)|[(_ & _ & -> & Hc & _)|
         [(_ & _ & k & Hk & Hnull & _)|(_ & _ & _ & -> & Hc & _)]]])];
    try done.
  destruct (Hfull k Hk) as [c Hc]. unfold slot_holds in Hc.
  rewrite Hc in Hnull. done.
Qed.

Lemma all_taken_full (i : nat) :
  (i < MAX_CONNECTIONS)%nat -> exists c, slot_holds all_taken i c.
Proof.
  unfold MAX_CONNECTIONS, slot_holds, all_taken. intros Hi.
  do 6 (destruct i as [|i]; [eexists; reflexivity|]). lia.
Qed.

Lemma full_pool_never_connects_witness :
  exists st' cs,
    device_found host_ok 17 (-40) BT_GAP_ADV_TYPE_ADV_IND
      [name_field "DXC"] all_taken = Some (tt, st') /\
    emitted all_taken st' cs /\
    conns st' = conns all_taken /\ count is_create cs = 0%nat.
Proof.
  apply (full_pool_never_connects host_ok 17 (-40) BT_GAP_ADV_TYPE_ADV_IND
           [name_field "DXC"] all_taken).
  exact all_taken_full.
Defined.
